(** * AiNux (LLM edition): the command-safety gate and the executor around it

    A shallow embedding of [AiNuxLLM.is_command_safe] and
    [AiNuxLLM.execute_command] from [ainux_llm.py], together with the
    sibling substring classifier [AiNux.is_command_safe] of [ainux.py].

    Python strings are modelled over the code points U+0000..U+00FF, one
    [ascii] per code point.  On that range [str.isspace], [str.lower],
    [str.upper], [str.strip] and the [re] classes [\s] and [.] are written
    out exactly as CPython defines them. *)

From Stdlib Require Import List Ascii String ZArith NArith Bool Lia.
Import ListNotations.

Local Open Scope char_scope.
Local Open Scope list_scope.

(** ** Python strings *)

Module PyStr.

Definition pystr := list ascii.

(** A literal of the source, as a list of code points. *)
Definition str (s : string) : pystr := list_ascii_of_string s.

Definition code (c : ascii) : N := N_of_ascii c.

Definition nl : ascii := ascii_of_N 10.

(** [str.isspace] on one code point: TAB..CR, FS..US, SPACE, NEL, NBSP. *)
Definition isspace (c : ascii) : bool :=
  let n := code c in
  ((9 <=? n) && (n <=? 13) || (28 <=? n) && (n <=? 32)
   || (n =? 133) || (n =? 160))%N.

(** [str.lower] on one code point: A..Z and the Latin-1 capitals
    U+00C0..U+00DE (the multiplication sign U+00D7 is not a letter). *)
Definition lower_char (c : ascii) : ascii :=
  let n := code c in
  if ((65 <=? n) && (n <=? 90)
      || (192 <=? n) && (n <=? 222) && negb (n =? 215))%N
  then ascii_of_N (n + 32) else c.

Definition lower (s : pystr) : pystr := map lower_char s.

(** [str.upper] on one code point.  The result can leave the range and
    can be two code points long, so it is a list of code point numbers:
    the micro sign goes to U+039C, sharp s to "SS", y-diaeresis to
    U+0178. *)
Definition upper_char (c : ascii) : list N :=
  let n := code c in
  if ((97 <=? n) && (n <=? 122)
      || (224 <=? n) && (n <=? 254) && negb (n =? 247))%N
  then [(n - 32)%N]
  else if (n =? 181)%N then [924%N]
  else if (n =? 223)%N then [83%N; 83%N]
  else if (n =? 255)%N then [376%N]
  else [n].

Definition upper (s : pystr) : list N := flat_map upper_char s.

Definition codes (s : pystr) : list N := map code s.

Fixpoint lstrip (s : pystr) : pystr :=
  match s with
  | [] => []
  | c :: s' => if isspace c then lstrip s' else s
  end.

Fixpoint rstrip (s : pystr) : pystr :=
  match s with
  | [] => []
  | c :: s' =>
      match rstrip s' with
      | [] => if isspace c then [] else [c]
      | t => c :: t
      end
  end.

(** [str.strip()] with no argument. *)
Definition strip (s : pystr) : pystr := rstrip (lstrip s).

End PyStr.

Import PyStr.

(** ** The fragment of [re] the patterns are written in *)

Module Re.

Inductive regex : Type :=
| Void                          (* matches nothing; arises in derivatives *)
| Eps                           (* the empty pattern *)
| Lit (c : ascii)               (* a literal character, escaped or not *)
| Space                         (* \s *)
| Dot                           (* .  *)
| Range (lo hi : ascii)         (* [lo-hi] *)
| OneOf (cs : list ascii)       (* [abc] *)
| Eos                           (* $ *)
| Cat (r1 r2 : regex)
| Alt (r1 r2 : regex)           (* r1|r2 *)
| Star (r : regex)              (* r* *)
| Plus (r : regex)              (* r+ *)
| Group (r : regex).            (* (r) *)

(** A run of literal characters and a flat sequence of pieces. *)
Fixpoint word (s : pystr) : regex :=
  match s with
  | [] => Eps
  | [c] => Lit c
  | c :: s' => Cat (Lit c) (word s')
  end.

Fixpoint seq (rs : list regex) : regex :=
  match rs with
  | [] => Eps
  | [r] => r
  | r :: rs' => Cat r (seq rs')
  end.

(** [$] without MULTILINE: at the end of the subject, or just before a
    newline that ends it. *)
Definition at_end (s : pystr) : bool :=
  match s with
  | [] => true
  | [c] => Ascii.eqb c nl
  | _ => false
  end.

Definition in_range (lo hi c : ascii) : bool :=
  ((code lo <=? code c) && (code c <=? code hi))%N.

Definition in_set (cs : list ascii) (c : ascii) : bool :=
  existsb (Ascii.eqb c) cs.

(** [nullable r s]: [r] matches the empty word at a position where [s]
    is what remains of the subject. *)
Fixpoint nullable (r : regex) (s : pystr) : bool :=
  match r with
  | Void | Lit _ | Space | Dot | Range _ _ | OneOf _ => false
  | Eps => true
  | Eos => at_end s
  | Cat r1 r2 => nullable r1 s && nullable r2 s
  | Alt r1 r2 => nullable r1 s || nullable r2 s
  | Star _ => true
  | Plus r1 => nullable r1 s
  | Group r1 => nullable r1 s
  end.

(** [deriv r c s]: what is left of [r] once it has consumed [c], where
    [s] is the subject after [c]. *)
Fixpoint deriv (r : regex) (c : ascii) (s : pystr) : regex :=
  match r with
  | Void | Eps | Eos => Void
  | Lit a => if Ascii.eqb a c then Eps else Void
  | Space => if isspace c then Eps else Void
  | Dot => if Ascii.eqb c nl then Void else Eps
  | Range lo hi => if in_range lo hi c then Eps else Void
  | OneOf cs => if in_set cs c then Eps else Void
  | Cat r1 r2 =>
      if nullable r1 (c :: s)
      then Alt (Cat (deriv r1 c s) r2) (deriv r2 c s)
      else Cat (deriv r1 c s) r2
  | Alt r1 r2 => Alt (deriv r1 c s) (deriv r2 c s)
  | Star r1 => Cat (deriv r1 c s) (Star r1)
  | Plus r1 => Cat (deriv r1 c s) (Star r1)
  | Group r1 => deriv r1 c s
  end.

(** [r] matches some prefix of [s]. *)
Fixpoint match_here (s : pystr) (r : regex) {struct s} : bool :=
  nullable r s ||
  match s with
  | [] => false
  | c :: s' => match_here s' (deriv r c s')
  end.

(** [re.search(r, s)] read as a truth value: a match starts somewhere. *)
Fixpoint search (r : regex) (s : pystr) : bool :=
  match_here s r ||
  match s with
  | [] => false
  | _ :: s' => search r s'
  end.

(** The pattern text of a regex, to set the trees below against the raw
    strings of the source. *)
Definition is_meta (c : ascii) : bool :=
  in_set (str "\.^$*+?()[]{}|") c.

Fixpoint src (r : regex) : pystr :=
  match r with
  | Void => str "(?!)"
  | Eps => []
  | Lit c => if is_meta c then ["\"; c] else [c]
  | Space => str "\s"
  | Dot => ["."]
  | Range lo hi => ["["; lo; "-"; hi; "]"]
  | OneOf cs => "[" :: cs ++ ["]"]
  | Eos => ["$"]
  | Cat r1 r2 => src r1 ++ src r2
  | Alt r1 r2 => src r1 ++ "|" :: src r2
  | Star r1 => src r1 ++ ["*"]
  | Plus r1 => src r1 ++ ["+"]
  | Group r1 => "(" :: src r1 ++ [")"]
  end.

(** The same fragment as a relation: [Matches r w rest] says that [r]
    matches exactly the word [w] at a place of the subject where [rest]
    follows.  Only [$] looks at [rest]. *)
Inductive Matches : regex -> pystr -> pystr -> Prop :=
| MEps rest : Matches Eps [] rest
| MLit c rest : Matches (Lit c) [c] rest
| MSpace c rest : isspace c = true -> Matches Space [c] rest
| MDot c rest : c <> nl -> Matches Dot [c] rest
| MRange lo hi c rest :
    in_range lo hi c = true -> Matches (Range lo hi) [c] rest
| MOneOf cs c rest : In c cs -> Matches (OneOf cs) [c] rest
| MEos rest : at_end rest = true -> Matches Eos [] rest
| MCat r1 r2 w1 w2 rest :
    Matches r1 w1 (w2 ++ rest) -> Matches r2 w2 rest ->
    Matches (Cat r1 r2) (w1 ++ w2) rest
| MAltL r1 r2 w rest : Matches r1 w rest -> Matches (Alt r1 r2) w rest
| MAltR r1 r2 w rest : Matches r2 w rest -> Matches (Alt r1 r2) w rest
| MStar0 r rest : Matches (Star r) [] rest
| MStarS r w1 w2 rest :
    Matches r w1 (w2 ++ rest) -> Matches (Star r) w2 rest ->
    Matches (Star r) (w1 ++ w2) rest
| MPlus r w1 w2 rest :
    Matches r w1 (w2 ++ rest) -> Matches (Star r) w2 rest ->
    Matches (Plus r) (w1 ++ w2) rest
| MGroup r w rest : Matches r w rest -> Matches (Group r) w rest.

(** [r] occurs in [s]: some segment of [s] is matched by [r]. *)
Definition Occurs (r : regex) (s : pystr) : Prop :=
  exists pre w rest, s = pre ++ w ++ rest /\ Matches r w rest.

End Re.

Import Re.

(** ** [AiNuxLLM.is_command_safe] *)

(** The three return values: [True], ["confirm"] and [False]. *)
Inductive verdict : Type :=
| Safe        (* True *)
| Confirm     (* "confirm" *)
| Forbidden.  (* False *)

Definition ws_end : regex := Group (Alt Space Eos).   (* (\s|$) *)

Definition forbidden_patterns : list regex :=
  [ seq [word (str "rm"); Plus Space; word (str "-rf"); Plus Space; Lit "/"];
    seq [word (str "format"); ws_end];
    word (str "fdisk");
    seq [word (str "dd"); Plus Space; word (str "if=")];
    Alt (seq [word (str ":()"); Star Space; Lit "{"; Star Space; Lit ":"])
        (seq [word (str ":&}"); Star Space; Lit ";"; Star Space; Lit ":"]);
    seq [word (str "shutdown"); ws_end];
    seq [word (str "reboot"); ws_end];
    seq [word (str "poweroff"); ws_end];
    seq [word (str "init"); Plus Space; OneOf (str "06")] ].

Definition confirmable_patterns : list regex :=
  [ seq [word (str "rm"); Plus Space; word (str "-rf"); Plus Space; Plus Dot];
    seq [word (str "rm"); Plus Space; Plus Dot];
    seq [word (str "del"); Plus Space; Plus Dot];
    seq [word (str "rmdir"); Plus Space; word (str "/s"); Plus Space;
         word (str "/q"); Plus Space; Plus Dot];
    seq [word (str "rmdir"); Plus Space; Plus Dot];
    seq [word (str "mv"); Plus Space; Plus Dot];
    seq [word (str "chmod"); Plus Space; Lit "7"; Range "0" "7"; Range "0" "7"];
    seq [word (str "chown"); Plus Space; word (str "-r"); Plus Space; Plus Dot] ].

(** [command.lower().strip()] *)
Definition normalize (command : pystr) : pystr := strip (lower command).

(** The two [for] loops, each returning at the first pattern found. *)
Definition is_command_safe (command : pystr) : verdict :=
  let command_lower := normalize command in
  if existsb (fun pattern => search pattern command_lower) forbidden_patterns
  then Forbidden
  else if existsb (fun pattern => search pattern command_lower)
                  confirmable_patterns
  then Confirm
  else Safe.

(** ** [AiNux.is_command_safe] of [ainux.py], the regex-free sibling *)

Module AiNux.

(** [needle in haystack] for strings. *)
Fixpoint starts_with (needle hay : pystr) : bool :=
  match needle, hay with
  | [], _ => true
  | _ :: _, [] => false
  | a :: needle', b :: hay' => Ascii.eqb a b && starts_with needle' hay'
  end.

Fixpoint contains (needle hay : pystr) : bool :=
  starts_with needle hay ||
  match hay with
  | [] => false
  | _ :: hay' => contains needle hay'
  end.

Definition dangerous_commands : list pystr :=
  map str [ "rm -rf /"; "del /q /s"; "format"; "fdisk"; "mkfs"; "dd";
            "shutdown"; "reboot"; "halt"; "poweroff"; "init 0";
            "init 6" ]%string.

Definition dangerous_keywords : list pystr :=
  map str [ "format"; "fdisk"; "mkfs"; "dd if="; "rm -rf /"; "del /q /s";
            ">nul"; "/dev/null"; "shutdown"; "reboot" ]%string.

Definition is_command_safe (command : pystr) : bool :=
  let command_lower := strip (lower command) in
  if existsb (fun dangerous_cmd => contains (lower dangerous_cmd) command_lower)
             dangerous_commands
  then false
  else if existsb (fun keyword => contains (lower keyword) command_lower)
                  dangerous_keywords
  then false
  else true.

End AiNux.

(** [AiNuxLLM._load_dangerous_commands]: built by [__init__] into
    [self.dangerous_commands], which [AiNuxLLM.is_command_safe] never
    reads. *)
Definition dangerous_commands : list pystr :=
  map str [ "rm -rf /"; "rm -rf *"; "del /q /s"; "format"; "fdisk"; "mkfs";
            "dd"; "shutdown"; "reboot"; "halt"; "poweroff"; "init 0";
            "init 6"; ":(){:|:&};:"; "wget"; "curl"; "chmod 777";
            "chown -R"; "rm -f /boot"; "mv /home" ]%string.

(** ** [AiNuxLLM.execute_command] *)

(** What [subprocess.run(command, shell=True, capture_output=True,
    text=True, timeout=30, cwd=os.getcwd())] can do. *)
Inductive proc_outcome : Type :=
| Completed (returncode : Z) (stdout stderr : pystr)
| TimeoutExpired
| OtherException (msg : pystr).     (* [str(e)] of any other exception *)

(** The part of the process environment the method touches: the lines
    waiting on standard input, the text printed so far, the commands
    handed to the shell so far, and the shell itself. *)
Record World : Type := mkWorld {
  stdin : list pystr;
  console : list pystr;
  spawned : list pystr;
  shell : pystr -> proc_outcome
}.

Inductive exn : Type := EOFError.

Inductive outcome (A : Type) : Type :=
| Return (a : A)
| Raise (e : exn).
Arguments Return {A} a.
Arguments Raise {A} e.

Definition M (A : Type) : Type := World -> outcome A * World.

Definition ret {A : Type} (a : A) : M A := fun w => (Return a, w).

Definition bind {A B : Type} (m : M A) (k : A -> M B) : M B :=
  fun w =>
    match m w with
    | (Return a, w') => k a w'
    | (Raise e, w') => (Raise e, w')
    end.

Notation "x <- m ;; k" := (bind m (fun x => k))
  (at level 61, m at next level, right associativity).
Notation "m ;;; k" := (bind m (fun _ => k))
  (at level 61, right associativity).

Definition print (text : pystr) : M unit :=
  fun w => (Return tt,
            mkWorld (stdin w) (console w ++ [text]) (spawned w) (shell w)).

(** [input(prompt)]: writes the prompt, then reads one line without its
    newline; raises [EOFError] when standard input is exhausted. *)
Definition input (prompt : pystr) : M pystr :=
  fun w =>
    match stdin w with
    | [] => (Raise EOFError,
             mkWorld [] (console w ++ [prompt]) (spawned w) (shell w))
    | line :: rest =>
        (Return line,
         mkWorld rest (console w ++ [prompt]) (spawned w) (shell w))
    end.

Definition subprocess_run (cmd : pystr) : M proc_outcome :=
  fun w => (Return (shell w cmd),
            mkWorld (stdin w) (console w) (spawned w ++ [cmd]) (shell w)).

(** The result dictionary; [return_code] is the one key that is not
    always there. *)
Record result : Type := mkResult {
  success : bool;
  output : pystr;
  error : pystr;
  command : pystr;
  return_code : option Z
}.

Definition YES : list N := codes (str "YES").

Definition codes_eqb (a b : list N) : bool :=
  if list_eq_dec N.eq_dec a b then true else false.

(** The [try] block with its two handlers. *)
Definition run_command (cmd : pystr) : M result :=
  r <- subprocess_run cmd ;;
  match r with
  | Completed returncode stdout stderr =>
      ret (mkResult (returncode =? 0)%Z
                    (match stdout with [] => [] | _ => strip stdout end)
                    (match stderr with [] => [] | _ => strip stderr end)
                    cmd
                    (Some returncode))
  | TimeoutExpired =>
      ret (mkResult false []
                    (str "Command timed out after 30 seconds: " ++ cmd)
                    cmd None)
  | OtherException msg =>
      ret (mkResult false []
                    (str "Unexpected error executing command: " ++ msg)
                    cmd None)
  end.

Definition blocked (cmd : pystr) : result :=
  mkResult false [] (str "Command blocked for security reasons: " ++ cmd)
           cmd None.

Definition cancelled (cmd : pystr) : result :=
  mkResult false [] (str "Execution cancelled by user: " ++ cmd) cmd None.

Definition warning (cmd : pystr) : pystr :=
  nl :: str "WARNING: This command may delete or modify important files:"
     ++ nl :: str "  " ++ cmd.

Definition execute_command (cmd : pystr) : M result :=
  let safety := is_command_safe cmd in
  match safety with
  | Forbidden => ret (blocked cmd)
  | Confirm =>
      print (warning cmd) ;;;
      print (str "If you're absolutely certain, type YES.") ;;;
      line <- input (str "Confirm (YES to run): ") ;;
      let confirm := strip line in
      if negb (codes_eqb (upper confirm) YES)
      then ret (cancelled cmd)
      else run_command cmd
  | Safe => run_command cmd
  end.

(** ** Vocabulary of the statements below *)

(** Some pattern of the list is found in the text. *)
Definition hits (patterns : list regex) (text : pystr) : bool :=
  existsb (fun pattern => search pattern text) patterns.

(** The world once the warning, the hint and the prompt are out and one
    line has been taken from standard input. *)
Definition asked (cmd : pystr) (rest : list pystr) (w : World) : World :=
  mkWorld rest
          (((console w ++ [warning cmd])
              ++ [str "If you're absolutely certain, type YES."])
             ++ [str "Confirm (YES to run): "])
          (spawned w) (shell w).

(** The world once the command has been handed to the shell. *)
Definition ran (cmd : pystr) (w : World) : World :=
  mkWorld (stdin w) (console w) (spawned w ++ [cmd]) (shell w).

(** The dictionary returned after a completed process. *)
Definition completed (cmd : pystr) (rc : Z) (out err : pystr) : result :=
  mkResult (rc =? 0)%Z (strip out) (strip err) cmd (Some rc).

(** The invariant the specification puts on a result. *)
Definition success_invariant (r : result) : Prop :=
  success r = true -> return_code r = Some 0%Z /\ error r = [].

(** Equality up to case, as [a.upper() == b.upper()]. *)
Definition ci_equal (a b : pystr) : Prop := upper a = upper b.

(** The command gets as far as [subprocess.run]: it is answered with
    [True], or with ["confirm"] and the next line on standard input,
    trimmed and upper-cased, is [YES]. *)
Definition reaches_shell (cmd : pystr) (w : World) : Prop :=
  match is_command_safe cmd with
  | Safe => True
  | Confirm => exists line rest,
      stdin w = line :: rest /\ upper (strip line) = YES
  | Forbidden => False
  end.

(** Three worlds to run examples in: a shell that exits with 0 after a
    warning on standard error, and a user who types [" yes "] or
    ["no"]. *)
Definition warn_world : World :=
  mkWorld [] [] []
          (fun _ => Completed 0 (str "ok") (str "warning: deprecated")).

Definition yes_world : World :=
  mkWorld [str " yes "] [] [] (fun _ => Completed 0 [] []).

Definition no_world : World :=
  mkWorld [str "no"] [] [] (fun _ => Completed 0 [] []).

(** * The rest of the two programs *)

From Stdlib Require Import DecimalString.

(** ** [re] with one capturing group, as the parsers use it

    The patterns of the natural-language parsers repeat single
    characters and character classes only, so the quantifiers take an
    atom.  The matcher backtracks in the order of [re]: a quantifier is
    greedy and gives characters back one at a time, the left branch of
    [|] is tried first, and [re.search] takes the leftmost start. *)

Module Rx.

Inductive atom : Type :=
| Chr (c : ascii)     (* a literal character, escaped or not *)
| Any                 (* .  *)
| Sp                  (* \s *)
| NonSp               (* \S *)
| Wd                  (* \w *)
| Dg.                 (* \d *)

Inductive pat : Type :=
| Nil                 (* the empty pattern *)
| One (a : atom)
| Many (a : atom)     (* a* *)
| More (a : atom)     (* a+ *)
| Maybe (a : atom)    (* a? *)
| Grp (p : pat)       (* (p), capturing *)
| Then (p1 p2 : pat)
| Or (p1 p2 : pat).   (* p1|p2 *)

(** [\w] on one code point: [str.isalnum] or the underscore. *)
Definition isword (c : ascii) : bool :=
  let n := code c in
  ((48 <=? n) && (n <=? 57) || (65 <=? n) && (n <=? 90) || (n =? 95)
   || (97 <=? n) && (n <=? 122) || (n =? 170)
   || (178 <=? n) && (n <=? 179) || (n =? 181)
   || (185 <=? n) && (n <=? 186) || (188 <=? n) && (n <=? 190)
   || (192 <=? n) && (n <=? 214) || (216 <=? n) && (n <=? 246)
   || (248 <=? n) && (n <=? 255))%N.

Definition isdigit (c : ascii) : bool :=
  let n := code c in ((48 <=? n) && (n <=? 57))%N.

Definition accepts (a : atom) (c : ascii) : bool :=
  match a with
  | Chr x => Ascii.eqb x c
  | Any => negb (Ascii.eqb c nl)
  | Sp => isspace c
  | NonSp => negb (isspace c)
  | Wd => isword c
  | Dg => isdigit c
  end.

Definition orelse {A : Type} (x y : option A) : option A :=
  match x with
  | Some _ => x
  | None => y
  end.

(** The text consumed between the subject [s] and what is left, [s']. *)
Definition consumed (s s' : pystr) : pystr :=
  firstn (List.length s - List.length s') s.

Section Run.

Context {A : Type}.

(** [a*] on [s]: as many as there are, then fewer. *)
Fixpoint many (a : atom) (s : pystr) (k : pystr -> option A) : option A :=
  match s with
  | c :: s' => if accepts a c then orelse (many a s' k) (k s) else k s
  | [] => k []
  end.

(** [run p s g k] matches [p] at the head of [s] with the group so far
    in [g], and hands what is left and the group to [k]; [None] makes
    it try the next alternative. *)
Fixpoint run (p : pat) (s : pystr) (g : option pystr)
         (k : pystr -> option pystr -> option A) : option A :=
  match p with
  | Nil => k s g
  | One a =>
      match s with
      | c :: s' => if accepts a c then k s' g else None
      | [] => None
      end
  | Many a => many a s (fun s' => k s' g)
  | More a =>
      match s with
      | c :: s' => if accepts a c then many a s' (fun s'' => k s'' g)
                   else None
      | [] => None
      end
  | Maybe a =>
      match s with
      | c :: s' => if accepts a c then orelse (k s' g) (k s g) else k s g
      | [] => k s g
      end
  | Grp p1 => run p1 s g (fun s' _ => k s' (Some (consumed s s')))
  | Then p1 p2 => run p1 s g (fun s' g' => run p2 s' g' k)
  | Or p1 p2 => orelse (run p1 s g k) (run p2 s g k)
  end.

End Run.

(** A match object, as far as the parsers look at it: [group(1)], which
    is [None] when the group took no part. *)
Record rmatch : Type := mkMatch { group1 : option pystr }.

(** [re.match(p, s)]: a match at the start of [s]. *)
Definition match_at (p : pat) (s : pystr) : option rmatch :=
  run p s None (fun _ g => Some (mkMatch g)).

(** [re.search(p, s)] *)
Fixpoint search (p : pat) (s : pystr) : option rmatch :=
  match match_at p s with
  | Some m => Some m
  | None =>
      match s with
      | [] => None
      | _ :: s' => search p s'
      end
  end.

(** [bool(match.groups())]: the pattern has a group. *)
Fixpoint has_group (p : pat) : bool :=
  match p with
  | Grp _ => true
  | Then p1 p2 | Or p1 p2 => has_group p1 || has_group p2
  | _ => false
  end.

(** A run of literal characters and a flat sequence of pieces. *)
Definition lit (s : string) : list pat := map (fun c => One (Chr c)) (str s).

Fixpoint cat (ps : list pat) : pat :=
  match ps with
  | [] => Nil
  | [p] => p
  | p :: ps' => Then p (cat ps')
  end.

(** The pattern text, to set the trees against the raw strings. *)
Definition atom_src (a : atom) : pystr :=
  match a with
  | Chr c => if Re.is_meta c then ["\"; c] else [c]
  | Any => ["."]
  | Sp => str "\s"
  | NonSp => str "\S"
  | Wd => str "\w"
  | Dg => str "\d"
  end.

Fixpoint src (p : pat) : pystr :=
  match p with
  | Nil => []
  | One a => atom_src a
  | Many a => atom_src a ++ ["*"]
  | More a => atom_src a ++ ["+"]
  | Maybe a => atom_src a ++ ["?"]
  | Grp p1 => "(" :: src p1 ++ [")"]
  | Then p1 p2 => src p1 ++ src p2
  | Or p1 p2 => src p1 ++ "|" :: src p2
  end.

(** *** Reading a pattern string

    One pass over the characters: a backslash escapes the next one, a
    quantifier applies to the piece just read, a group holds a sequence,
    and [|] separates alternatives at the top. *)
Record pstate : Type := mkPstate {
  alts : list pat;             (* finished alternatives *)
  cur : list pat;              (* the current one, last piece first *)
  grp : option (list pat);     (* the open group, last piece first *)
  esc : bool                   (* a backslash has just been read *)
}.

Definition push (st : pstate) (p : pat) : pstate :=
  match grp st with
  | Some items => mkPstate (alts st) (cur st) (Some (p :: items)) false
  | None => mkPstate (alts st) (p :: cur st) None false
  end.

Definition requantify (q : atom -> pat) (items : list pat) : list pat :=
  match items with
  | One a :: rest => q a :: rest
  | _ => items
  end.

Definition quantify (st : pstate) (q : atom -> pat) : pstate :=
  match grp st with
  | Some items => mkPstate (alts st) (cur st) (Some (requantify q items)) false
  | None => mkPstate (alts st) (requantify q (cur st)) None false
  end.

Definition escaped (c : ascii) : atom :=
  if Ascii.eqb c "s" then Sp
  else if Ascii.eqb c "S" then NonSp
  else if Ascii.eqb c "w" then Wd
  else if Ascii.eqb c "d" then Dg
  else Chr c.

Definition step (st : pstate) (c : ascii) : pstate :=
  if esc st then push st (One (escaped c))
  else if Ascii.eqb c "\" then mkPstate (alts st) (cur st) (grp st) true
  else if Ascii.eqb c "." then push st (One Any)
  else if Ascii.eqb c "*" then quantify st Many
  else if Ascii.eqb c "+" then quantify st More
  else if Ascii.eqb c "?" then quantify st Maybe
  else if Ascii.eqb c "(" then mkPstate (alts st) (cur st) (Some []) false
  else if Ascii.eqb c ")" then
    match grp st with
    | Some items =>
        mkPstate (alts st) (Grp (cat (rev items)) :: cur st) None false
    | None => st
    end
  else if Ascii.eqb c "|" then
    mkPstate (alts st ++ [cat (rev (cur st))]) [] None false
  else push st (One (Chr c)).

Fixpoint any_of (ps : list pat) (last : pat) : pat :=
  match ps with
  | [] => last
  | p :: ps' => Or p (any_of ps' last)
  end.

(** [re.compile] *)
Definition compile (pattern : pystr) : pat :=
  let st := fold_left step pattern (mkPstate [] [] None false) in
  any_of (alts st) (cat (rev (cur st))).

End Rx.
(** ** Python values used by the rest *)

Module Py.

Definition dq : ascii := ascii_of_N 34.

(** A literal of the source that holds double quotes, written here with
    a backquote for each of them (the sources hold no backquote). *)
Definition strq (s : string) : pystr :=
  map (fun c => if Ascii.eqb c "`" then dq else c) (str s).

Fixpoint str_eqb (a b : pystr) : bool :=
  match a, b with
  | [], [] => true
  | x :: a', y :: b' => Ascii.eqb x y && str_eqb a' b'
  | _, _ => false
  end.

(** [x in [...]] for a list of strings. *)
Definition in_list (x : pystr) (l : list pystr) : bool :=
  existsb (str_eqb x) l.

(** Truth of a string: it is not empty. *)
Definition truthy (s : pystr) : bool :=
  match s with
  | [] => false
  | _ => true
  end.

(** [s.startswith(prefix)] and [s.endswith(suffix)] *)
Definition startswith (s prefix : pystr) : bool :=
  AiNux.starts_with prefix s.

Definition endswith (s suffix : pystr) : bool :=
  AiNux.starts_with (rev suffix) (rev s).

(** [s[1:-1]] *)
Definition inner (s : pystr) : pystr := removelast (tl s).

(** [d.get(key)] on a dictionary kept as the list of its items. *)
Fixpoint get {V : Type} (d : list (pystr * V)) (key : pystr) : option V :=
  match d with
  | [] => None
  | (k, v) :: d' => if str_eqb k key then Some v else get d' key
  end.

(** What an f-string shows for [match.group(1)]: the text, or [None]. *)
Definition shown (g : option pystr) : pystr :=
  match g with
  | Some t => t
  | None => str "None"
  end.

(** [str(n)] for an integer. *)
Definition str_of_Z (z : Z) : pystr :=
  str (NilZero.string_of_int (Z.to_int z)).

(** [int(s)]: blanks around (the separators U+001C..U+001F are not
    taken for blanks here), an optional sign, then decimal digits with
    single underscores between them; anything else raises. *)
Definition int_blank (c : ascii) : bool :=
  let n := code c in
  isspace c && negb ((28 <=? n) && (n <=? 31))%N.

Fixpoint int_lstrip (s : pystr) : pystr :=
  match s with
  | [] => []
  | c :: s' => if int_blank c then int_lstrip s' else s
  end.

Definition int_strip (s : pystr) : pystr :=
  rev (int_lstrip (rev (int_lstrip s))).

Definition digit_value (c : ascii) : Z := Z.of_N (code c) - 48.

(** [digits acc after_digit s]: the number read so far, and whether the
    last character was a digit (an underscore needs one on each side). *)
Fixpoint digits (acc : Z) (after_digit : bool) (s : pystr) : option Z :=
  match s with
  | [] => if after_digit then Some acc else None
  | c :: s' =>
      if Rx.isdigit c then digits (10 * acc + digit_value c) true s'
      else if Ascii.eqb c "_" && after_digit then
        match s' with
        | d :: _ => if Rx.isdigit d then digits acc false s' else None
        | [] => None
        end
      else None
  end.

Definition int (s : pystr) : option Z :=
  match int_strip s with
  | "-" :: t => option_map Z.opp (digits 0 false t)
  | "+" :: t => digits 0 false t
  | t => digits 0 false t
  end.

End Py.

Import Py.

(** ** [AiNux] of [ainux.py]: the parser and the executor *)

Module AiNuxShell.

Definition command_mappings : list (pystr * list (pystr * pystr)) :=
  [ (str "windows",
      [ (str "list_files", str "dir");
        (str "current_directory", str "cd");
        (str "change_directory", str "cd");
        (str "create_directory", str "mkdir");
        (str "remove_file", str "del");
        (str "copy_file", str "copy");
        (str "move_file", str "move");
        (str "show_processes", str "tasklist");
        (str "network_info", str "ipconfig");
        (str "system_info", str "systeminfo");
        (str "disk_usage", str "dir /-c") ]);
    (str "linux",
      [ (str "list_files", str "ls -la");
        (str "current_directory", str "pwd");
        (str "change_directory", str "cd");
        (str "create_directory", str "mkdir");
        (str "remove_file", str "rm");
        (str "copy_file", str "cp");
        (str "move_file", str "mv");
        (str "show_processes", str "ps aux");
        (str "network_info", str "ifconfig");
        (str "system_info", str "uname -a");
        (str "disk_usage", str "df -h") ]);
    (str "darwin",
      [ (str "list_files", str "ls -la");
        (str "current_directory", str "pwd");
        (str "change_directory", str "cd");
        (str "create_directory", str "mkdir");
        (str "remove_file", str "rm");
        (str "copy_file", str "cp");
        (str "move_file", str "mv");
        (str "show_processes", str "ps aux");
        (str "network_info", str "ifconfig");
        (str "system_info", str "uname -a");
        (str "disk_usage", str "df -h") ]) ].

Definition patterns : list (pystr * list pystr) :=
  [ (str "list_files",
     map str [ "list.*files?.*current.*director";
               "show.*files?.*current.*director"; "list.*files?.*here";
               "show.*files?.*here"; "list.*director.*content";
               "what.*files?.*here"; "dir"; "ls" ]%string);
    (str "current_directory",
     map str [ "show.*current.*director"; "what.*current.*director";
               "where.*am.*i"; "current.*path"; "working.*director"; "pwd" ]%string);
    (str "change_directory",
     map str [ "change.*director.*to\s+(\S+)"; "go.*to.*director.*(\S+)";
               "cd\s+(\S+)"; "navigate.*to\s+(\S+)" ]%string);
    (str "create_directory",
     map str [ "create.*director.*(\S+)"; "make.*director.*(\S+)";
               "mkdir\s+(\S+)"; "new.*folder.*(\S+)" ]%string);
    (str "show_processes",
     map str [ "show.*process"; "list.*process"; "running.*process";
               "task.*list"; "ps" ]%string);
    (str "network_info",
     map str [ "show.*network.*info"; "network.*config"; "ip.*config";
               "network.*settings" ]%string);
    (str "system_info",
     map str [ "system.*info"; "show.*system.*info"; "computer.*info";
               "machine.*info" ]%string);
    (str "disk_usage",
     map str [ "disk.*usage"; "disk.*space"; "storage.*info"; "free.*space" ]%string) ].

(** The inner [for] loop: the patterns of one command type, in order.
    A pattern that matches returns, unless the platform has no command
    of this type. *)
Fixpoint try_patterns (platform command_type : pystr)
         (pattern_list : list pystr) (input_lower : pystr) : option pystr :=
  match pattern_list with
  | [] => None
  | pattern :: rest =>
      match Rx.search (Rx.compile pattern) input_lower with
      | Some m =>
          let platform_commands :=
            match get command_mappings platform with
            | Some d => d
            | None => []
            end in
          match get platform_commands command_type with
          | Some base_command =>
              if truthy base_command then
                if in_list command_type
                           (map str ["change_directory";
                                     "create_directory"]%string)
                   && Rx.has_group (Rx.compile pattern)
                then Some (base_command ++ str " " ++ shown (Rx.group1 m))
                else Some base_command
              else try_patterns platform command_type rest input_lower
          | None => try_patterns platform command_type rest input_lower
          end
      | None => try_patterns platform command_type rest input_lower
      end
  end.

(** The outer [for] loop over [patterns.items()], in insertion order. *)
Fixpoint try_types (platform : pystr) (items : list (pystr * list pystr))
         (input_lower : pystr) : option pystr :=
  match items with
  | [] => None
  | (command_type, pattern_list) :: rest =>
      match try_patterns platform command_type pattern_list input_lower with
      | Some c => Some c
      | None => try_types platform rest input_lower
      end
  end.

(** [platform] is [self.platform], that is [platform.system().lower()]. *)
Definition parse_natural_language (platform user_input : pystr)
  : option pystr :=
  let input_lower := strip (lower user_input) in
  try_types platform patterns input_lower.

(** [subprocess.run] without [check=True] never raises
    [CalledProcessError], so that handler is dead and what is left is
    the [try] block of the other class. *)
Definition execute_command (cmd : pystr) : M result :=
  if negb (AiNux.is_command_safe cmd) then ret (blocked cmd)
  else run_command cmd.

End AiNuxShell.

(** ** [GeminiLLM] *)

Module Gemini.

Definition prefixes_to_remove : list pystr :=
  map str ["command:"; "output:"; ">"; "$"; "#"]%string.

Definition invalid_responses : list pystr :=
  map str ["invalid_request"; "invalid request"; "error"; "unknown"]%string.

(** One turn of the loop over the prefixes. *)
Definition remove_prefix (command prefix : pystr) : pystr :=
  if startswith (lower command) prefix
  then strip (skipn (List.length prefix) command)
  else command.

Definition unquote (quote : ascii) (command : pystr) : pystr :=
  if startswith command [quote] && endswith command [quote]
  then inner command
  else command.

Definition _extract_command (llm_response : pystr) : option pystr :=
  if negb (truthy llm_response) then None
  else
    let command := strip llm_response in
    let command := fold_left remove_prefix prefixes_to_remove command in
    if in_list (lower command) invalid_responses then None
    else if negb (truthy command) || Nat.ltb 200 (List.length command) then None
    else
      let command := unquote dq command in
      let command := unquote "'" command in
      Some command.

(** What one call of [model.generate_content] comes to: a response with
    its [text] (empty when there is none), or an exception. *)
Inductive api_outcome : Type :=
| ApiText (text : pystr)
| ApiError (msg : pystr).

(** The world seen from here: the console world, the outcome of every
    request to the service in the order they are made, the number of
    requests made, and the seconds slept. *)
Record LWorld : Type := mkLWorld {
  world : World;
  api : nat -> api_outcome;
  requests : nat;
  slept : nat
}.

Definition L (A : Type) : Type := LWorld -> A * LWorld.

Definition lret {A : Type} (a : A) : L A := fun lw => (a, lw).

Definition lbind {A B : Type} (m : L A) (k : A -> L B) : L B :=
  fun lw => let (a, lw') := m lw in k a lw'.

Definition lprint (text : pystr) : L unit :=
  fun lw =>
    (tt, mkLWorld (snd (print text (world lw))) (api lw) (requests lw)
                  (slept lw)).

Definition generate_content : L api_outcome :=
  fun lw =>
    (api lw (requests lw),
     mkLWorld (world lw) (api lw) (S (requests lw)) (slept lw)).

Definition sleep (seconds : nat) : L unit :=
  fun lw =>
    (tt, mkLWorld (world lw) (api lw) (requests lw) (slept lw + seconds)).

(** The object: [self.available] and [self.config.max_retries]. *)
Record GeminiLLM : Type := mkGemini {
  available : bool;
  max_retries : nat
}.

Definition str_of_nat (n : nat) : pystr := str_of_Z (Z.of_nat n).

(** [for attempt in range(max_retries)], from [attempt] on, with [left]
    turns to go. *)
Fixpoint attempts (self : GeminiLLM) (attempt left : nat)
  : L (option pystr) :=
  match left with
  | O => lret None
  | S left' =>
      lbind generate_content (fun response =>
      match response with
      | ApiText text =>
          match (if truthy text then _extract_command text else None) with
          | Some command =>
              if truthy command then lret (Some command)
              else attempts self (S attempt) left'
          | None => attempts self (S attempt) left'
          end
      | ApiError msg =>
          lbind (lprint (str "RETRY: LLM request attempt "
                           ++ str_of_nat (attempt + 1)
                           ++ str " failed: " ++ msg)) (fun _ =>
          lbind (if Nat.ltb attempt (max_retries self - 1) then sleep 1
                 else lret tt) (fun _ =>
          attempts self (S attempt) left'))
      end)
  end.

Definition generate_command (self : GeminiLLM) (user_input platform : pystr)
  : L (option pystr) :=
  if negb (available self) then lret None
  else attempts self 0 (max_retries self).

End Gemini.

(** ** [AiNuxLLM]: the parsers and the display *)

Module LLM.

Import Gemini.

Definition command_mappings : list (pystr * list (pystr * pystr)) :=
  [ (str "windows",
      [ (str "list_files", str "dir");
        (str "list_python_files", str "dir *.py");
        (str "list_specific_files", str "dir *.");
        (str "current_directory", str "cd");
        (str "change_directory", str "cd");
        (str "create_directory", str "mkdir");
        (str "remove_file", str "del");
        (str "copy_file", str "copy");
        (str "move_file", str "move");
        (str "show_processes", str "tasklist");
        (str "show_specific_processes", strq "tasklist /fi `imagename eq");
        (str "network_info", str "ipconfig");
        (str "network_connections", str "netstat -an");
        (str "system_info", str "systeminfo");
        (str "disk_usage", str "dir /-c");
        (str "environment_vars", str "set");
        (str "logged_users", str "query user");
        (str "large_files", str "dir /s /o-s");
        (str "recent_files", strq "forfiles /m *.* /c `cmd /c echo @path @fdate`");
        (str "file_count", strq "dir /b | find /c /v ``");
        (str "memory_usage", strq "systeminfo | findstr `Available Physical Memory`") ]);
    (str "linux",
      [ (str "list_files", str "ls -la");
        (str "list_python_files", str "ls -la *.py");
        (str "list_specific_files", str "ls -la *.");
        (str "current_directory", str "pwd");
        (str "change_directory", str "cd");
        (str "create_directory", str "mkdir");
        (str "remove_file", str "rm");
        (str "copy_file", str "cp");
        (str "move_file", str "mv");
        (str "show_processes", str "ps aux");
        (str "show_specific_processes", str "ps aux | grep");
        (str "network_info", str "ifconfig");
        (str "network_connections", str "netstat -tuln");
        (str "system_info", str "uname -a");
        (str "disk_usage", str "df -h");
        (str "environment_vars", str "env");
        (str "logged_users", str "who");
        (str "large_files", str "find . -size +100M -ls");
        (str "recent_files", str "find . -mtime -1 -ls");
        (str "file_count", str "ls -1 | wc -l");
        (str "memory_usage", str "free -h") ]);
    (str "darwin",
      [ (str "list_files", str "ls -la");
        (str "list_python_files", str "ls -la *.py");
        (str "list_specific_files", str "ls -la *.");
        (str "current_directory", str "pwd");
        (str "change_directory", str "cd");
        (str "create_directory", str "mkdir");
        (str "remove_file", str "rm");
        (str "copy_file", str "cp");
        (str "move_file", str "mv");
        (str "show_processes", str "ps aux");
        (str "show_specific_processes", str "ps aux | grep");
        (str "network_info", str "ifconfig");
        (str "network_connections", str "netstat -tuln");
        (str "system_info", str "uname -a");
        (str "disk_usage", str "df -h");
        (str "environment_vars", str "env");
        (str "logged_users", str "who");
        (str "large_files", str "find . -size +100M -ls");
        (str "recent_files", str "find . -mtime -1 -ls");
        (str "file_count", str "ls -1 | wc -l");
        (str "memory_usage", str "vm_stat") ]) ].

Definition patterns : list (pystr * list pystr) :=
  [ (str "list_files",
     map str [ "list.*files?.*current.*director";
               "show.*files?.*current.*director"; "list.*files?.*here";
               "show.*files?.*here"; "list.*director.*content";
               "what.*files?.*here"; "dir"; "ls"; "show.*all.*files?";
               "display.*files?"; "files?.*in.*this"; "contents?.*of.*this";
               "what.*is.*in.*this" ]%string);
    (str "list_python_files",
     map str [ "python.*files?"; "\.py.*files?"; "show.*python";
               "list.*python"; "find.*python.*files?"; "all.*\.py" ]%string);
    (str "list_specific_files",
     map str [ "show.*(\w+).*files?"; "list.*(\w+).*files?";
               "find.*(\w+).*files?"; "all.*\.(\w+).*files?" ]%string);
    (str "current_directory",
     map str [ "show.*current.*director"; "what.*current.*director";
               "where.*am.*i"; "current.*path"; "working.*director"; "pwd";
               "current.*location"; "what.*director.*am.*i"; "my.*location";
               "present.*working" ]%string);
    (str "change_directory",
     map str [ "change.*director.*to\s+(\S+)"; "go.*to.*director.*(\S+)";
               "cd\s+(\S+)"; "navigate.*to\s+(\S+)";
               "move.*to.*director.*(\S+)"; "switch.*to.*(\S+)" ]%string);
    (str "create_directory",
     map str [ "create.*director.*(\S+)"; "make.*director.*(\S+)";
               "mkdir\s+(\S+)"; "new.*folder.*(\S+)"; "create.*folder.*(\S+)";
               "make.*folder.*(\S+)"; "add.*director.*(\S+)" ]%string);
    (str "show_processes",
     map str [ "show.*process"; "list.*process"; "running.*process";
               "task.*list"; "ps"; "what.*process.*running";
               "active.*process"; "current.*process"; "process.*list";
               "tasks?.*running" ]%string);
    (str "show_specific_processes",
     map str [ "process.*contain.*(\w+)"; "find.*process.*(\w+)";
               "(\w+).*process"; "running.*(\w+)"; "tasks?.*with.*(\w+)" ]%string);
    (str "network_info",
     map str [ "show.*network.*info"; "network.*config"; "ip.*config";
               "network.*settings"; "network.*details"; "my.*ip";
               "network.*address"; "connection.*info" ]%string);
    (str "network_connections",
     map str [ "network.*connection"; "active.*connection";
               "open.*connection"; "established.*connection"; "netstat";
               "who.*connected" ]%string);
    (str "system_info",
     map str [ "system.*info"; "show.*system.*info"; "computer.*info";
               "machine.*info"; "system.*details"; "hardware.*info";
               "system.*specification" ]%string);
    (str "disk_usage",
     map str [ "disk.*usage"; "disk.*space"; "storage.*info"; "free.*space";
               "available.*space"; "how.*much.*space"; "disk.*size";
               "storage.*usage" ]%string);
    (str "environment_vars",
     map str [ "environment.*variable"; "env.*var"; "system.*variable";
               "path.*variable"; "show.*env" ]%string);
    (str "logged_users",
     map str [ "who.*logged.*in"; "current.*user"; "logged.*user";
               "active.*user"; "who.*online" ]%string);
    (str "large_files",
     map str [ "large.*files?"; "big.*files?"; "huge.*files?";
               "files?.*large"; "biggest.*files?" ]%string);
    (str "recent_files",
     map str [ "recent.*files?"; "modified.*files?"; "new.*files?";
               "latest.*files?"; "files?.*modified"; "changed.*files?" ]%string);
    (str "file_count",
     map str [ "how.*many.*files?"; "count.*files?"; "number.*of.*files?";
               "files?.*count" ]%string);
    (str "memory_usage",
     map str [ "memory.*usage"; "ram.*usage"; "memory.*info"; "free.*memory";
               "available.*memory" ]%string) ].

Definition is_windows (platform : pystr) : bool :=
  str_eqb platform (str "windows").

Definition _get_large_files_command (platform size_mb : pystr)
  : option pystr :=
  if is_windows platform then
    match int size_mb with
    | Some n =>
        Some (strq "forfiles /s /c `cmd /c if @fsize geq "
                ++ str_of_Z (n * 1024 * 1024)
                ++ strq " echo @path @fsize`")
    | None => None
    end
  else Some (str "find . -size +" ++ size_mb ++ str "M -ls").

Definition _get_recent_files_command (platform timeframe : pystr) : pystr :=
  if is_windows platform then
    if str_eqb timeframe (str "today")
    then strq "forfiles /m *.* /c `cmd /c echo @path @fdate @ftime`"
    else str "forfiles /m *.* /d -" ++ timeframe
           ++ strq " /c `cmd /c echo @path @fdate`"
  else
    if str_eqb timeframe (str "today")
    then strq "find . -newermt `$(date +%Y-%m-%d)` -ls"
    else str "find . -mtime -" ++ timeframe ++ str " -ls".

Definition _get_file_count_command (platform : pystr) : pystr :=
  if is_windows platform then strq "dir /b | find /c /v ``"
  else str "ls -1 | wc -l".

Definition _get_total_size_command (platform : pystr) : pystr :=
  if is_windows platform then str "dir /s" else str "du -sh .".

Definition _get_kill_process_command (platform process_name : pystr)
  : pystr :=
  if is_windows platform
  then strq "tasklist /fi `imagename eq " ++ process_name ++ strq "*`"
  else str "ps aux | grep " ++ process_name.

Definition _get_process_memory_command (platform process_name : pystr)
  : pystr :=
  if is_windows platform
  then strq "tasklist /fi `imagename eq " ++ process_name
         ++ strq "*` /fo table"
  else str "ps aux | grep " ++ process_name
         ++ strq " | awk '{print $4` `$11}'".

Definition _get_disk_space_command (platform drive : pystr) : pystr :=
  if is_windows platform
  then str "dir " ++ drive ++ str ":\ /-c"
  else str "df -h /" ++ drive ++ str " 2>/dev/null || df -h".

Definition _get_temperature_command (platform : pystr) : pystr :=
  if is_windows platform
  then str "wmic /namespace:\\root\wmi PATH MSAcpi_ThermalZoneTemperature get CurrentTemperature"
  else strq "sensors 2>/dev/null || cat /sys/class/thermal/thermal_zone*/temp 2>/dev/null || echo `Temperature sensors not available`".

Definition _get_uptime_command (platform : pystr) : pystr :=
  if is_windows platform then strq "systeminfo | findstr `System Boot Time`"
  else str "uptime".

(** [advanced_patterns]: each pattern with its function of the match;
    [None] stands for an exception, which the loop swallows. *)
Definition advanced_patterns (platform : pystr)
  : list (pystr * (Rx.rmatch -> option pystr)) :=
  [ (str "find.*files?.*larger.*than.*(\d+)",
     fun m => _get_large_files_command platform (shown (Rx.group1 m)));
    (str "show.*files?.*modified.*today",
     fun m => Some (_get_recent_files_command platform (str "today")));
    (str "files?.*modified.*last.*(\d+).*days?",
     fun m => Some (_get_recent_files_command platform
                                              (shown (Rx.group1 m))));
    (str "count.*files?.*in.*current",
     fun m => Some (_get_file_count_command platform));
    (str "size.*of.*all.*files?",
     fun m => Some (_get_total_size_command platform));
    (str "kill.*process.*(\w+)",
     fun m => Some (_get_kill_process_command platform
                                              (shown (Rx.group1 m))));
    (str "memory.*used.*by.*(\w+)",
     fun m => Some (_get_process_memory_command platform
                                                (shown (Rx.group1 m))));
    (str "free.*space.*on.*(\w+)",
     fun m => Some (_get_disk_space_command platform
                                            (shown (Rx.group1 m))));
    (str "temperature|thermal",
     fun m => Some (_get_temperature_command platform));
    (str "uptime|how.*long.*running",
     fun m => Some (_get_uptime_command platform)) ].

(** What a match of a pattern of [command_type] returns, given the
    platform's base command. *)
Definition command_for (platform command_type pattern base_command : pystr)
           (m : Rx.rmatch) : pystr :=
  let groups := Rx.has_group (Rx.compile pattern) in
  if in_list command_type
             (map str ["change_directory"; "create_directory"]%string)
     && groups
  then base_command ++ str " " ++ shown (Rx.group1 m)
  else if str_eqb command_type (str "list_specific_files") && groups then
    let extension := shown (Rx.group1 m) in
    if is_windows platform then str "dir *." ++ extension
    else str "ls -la *." ++ extension
  else if str_eqb command_type (str "show_specific_processes") && groups then
    let process_name := shown (Rx.group1 m) in
    if is_windows platform
    then strq "tasklist /fi `imagename eq " ++ process_name ++ strq "*`"
    else str "ps aux | grep " ++ process_name
  else base_command.

Fixpoint try_patterns (platform command_type : pystr)
         (pattern_list : list pystr) (input_lower : pystr) : option pystr :=
  match pattern_list with
  | [] => None
  | pattern :: rest =>
      match Rx.search (Rx.compile pattern) input_lower with
      | Some m =>
          let platform_commands :=
            match get command_mappings platform with
            | Some d => d
            | None => []
            end in
          match get platform_commands command_type with
          | Some base_command =>
              if truthy base_command
              then Some (command_for platform command_type pattern
                                     base_command m)
              else try_patterns platform command_type rest input_lower
          | None => try_patterns platform command_type rest input_lower
          end
      | None => try_patterns platform command_type rest input_lower
      end
  end.

Fixpoint try_types (platform : pystr) (items : list (pystr * list pystr))
         (input_lower : pystr) : option pystr :=
  match items with
  | [] => None
  | (command_type, pattern_list) :: rest =>
      match try_patterns platform command_type pattern_list input_lower with
      | Some c => Some c
      | None => try_types platform rest input_lower
      end
  end.

(** The loop over [advanced_patterns.items()]. *)
Fixpoint try_advanced (items : list (pystr * (Rx.rmatch -> option pystr)))
         (input_lower : pystr) : option pystr :=
  match items with
  | [] => None
  | (pattern, command_func) :: rest =>
      match Rx.search (Rx.compile pattern) input_lower with
      | Some m =>
          match command_func m with
          | Some c => Some c
          | None => try_advanced rest input_lower
          end
      | None => try_advanced rest input_lower
      end
  end.

Definition _parse_with_regex (platform user_input : pystr) : option pystr :=
  let input_lower := strip (lower user_input) in
  match try_types platform patterns input_lower with
  | Some c => Some c
  | None => try_advanced (advanced_patterns platform) input_lower
  end.

(** The object: [self.platform], [self.use_llm] and [self.llm]. *)
Record AiNuxLLM : Type := mkAiNuxLLM {
  platform : pystr;
  use_llm : bool;
  llm : option GeminiLLM
}.

(** [self.use_llm and self.llm and self.llm.available] *)
Definition llm_ready (self : AiNuxLLM) : option GeminiLLM :=
  if use_llm self then
    match llm self with
    | Some g => if available g then Some g else None
    | None => None
    end
  else None.

Definition is_truthy (v : verdict) : bool :=
  match v with
  | Forbidden => false
  | _ => true
  end.

Definition regex_fallback (self : AiNuxLLM) (user_input : pystr)
  : L (option pystr) :=
  lbind (lprint (str "Falling back to enhanced regex parsing...")) (fun _ =>
  let result := _parse_with_regex (platform self) user_input in
  lbind (match result with
         | Some ((_ :: _) as r) =>
             lprint (str "SUCCESS: Regex found match: " ++ r)
         | _ => lprint (str "FAILED: No regex pattern matched")
         end) (fun _ =>
  lret result)).

Definition parse_natural_language (self : AiNuxLLM) (user_input : pystr)
  : L (option pystr) :=
  match llm_ready self with
  | Some g =>
      lbind (lprint (str "Trying LLM processing...")) (fun _ =>
      lbind (generate_command g user_input (platform self)) (fun command =>
      match command with
      | Some ((_ :: _) as c) =>
          if is_truthy (is_command_safe c) then
            lbind (lprint (str "SUCCESS: LLM generated safe command: " ++ c))
                  (fun _ => lret (Some c))
          else
            lbind (lprint (str "BLOCKED: LLM generated unsafe command: "
                             ++ c))
                  (fun _ => regex_fallback self user_input)
      | _ =>
          lbind (lprint (str "FAILED: LLM could not process: '"
                           ++ user_input ++ str "'"))
                (fun _ => regex_fallback self user_input)
      end))
  | None => regex_fallback self user_input
  end.

(** [display_result] *)
Definition rule (n : nat) : pystr := repeat "="%char n.

Definition display_result (r : result) : M unit :=
  print (nl :: rule 50) ;;;
  print (str "EXECUTED COMMAND: " ++ command r) ;;;
  print (rule 50) ;;;
  (if success r then
     print (str "Status: SUCCESS") ;;;
     (if truthy (output r) then
        print (str "Output:") ;;; print (output r)
      else print (str "Output: (no output)"))
   else
     print (str "Status: FAILED") ;;;
     (if truthy (error r) then print (str "Error: " ++ error r)
      else ret tt)) ;;;
  print (rule 50).

End LLM.

(** ** Vocabulary of the statements of part two *)

(** The two ends of a word are visible characters. *)
Definition visible_ends (w : pystr) : bool :=
  match w with
  | [] => false
  | c :: _ => negb (isspace c) && negb (isspace (last w c))
  end.

(** An atom that takes no newline, so that [.] takes whatever it takes. *)
Definition visible_atom (a : Rx.atom) : bool :=
  match a with
  | Rx.NonSp | Rx.Wd | Rx.Dg => true
  | _ => false
  end.

(** The pattern ends in [.*(a+)] for such an atom. *)
Fixpoint greedy_tail (p : Rx.pat) : bool :=
  match p with
  | Rx.Then (Rx.Many Rx.Any) (Rx.Grp (Rx.More a)) => visible_atom a
  | Rx.Then _ p2 => greedy_tail p2
  | _ => false
  end.

(** Every way through the pattern goes through a group. *)
Fixpoint sets_group (p : Rx.pat) : bool :=
  match p with
  | Rx.Grp _ => true
  | Rx.Then p1 p2 => sets_group p1 || sets_group p2
  | Rx.Or p1 p2 => sets_group p1 && sets_group p2
  | _ => false
  end.

(** The two command types whose group becomes an argument. *)
Definition specials : list pystr :=
  map str ["change_directory"; "create_directory"]%string.

(** The platforms the tables know. *)
Definition known_platforms : list pystr :=
  map str ["windows"; "linux"; "darwin"]%string.

(** [self.command_mappings.get(self.platform, {})] in the two classes. *)
Definition ainux_commands (platform : pystr) : list (pystr * pystr) :=
  match get AiNuxShell.command_mappings platform with
  | Some d => d
  | None => []
  end.

Definition llm_commands (platform : pystr) : list (pystr * pystr) :=
  match get LLM.command_mappings platform with
  | Some d => d
  | None => []
  end.

(** A command as the service should give it: visible at both ends, at
    most 200 characters, none of the refusal words, no prefix to remove
    and no quotes around it. *)
Definition plain_command (c : pystr) : bool :=
  visible_ends c
  && (List.length c <=? 200)%nat
  && negb (in_list (lower c) Gemini.invalid_responses)
  && forallb (fun prefix => negb (startswith (lower c) prefix))
             Gemini.prefixes_to_remove
  && negb (startswith c [dq] && endswith c [dq])
  && negb (startswith c ["'"] && endswith c ["'"]).

(** The first command that can be extracted from the responses
    [from], [from + 1], ... of the service, [n] of them at most. *)
Fixpoint first_good (api : nat -> Gemini.api_outcome) (from n : nat)
  : option pystr :=
  match n with
  | O => None
  | S n' =>
      match api from with
      | Gemini.ApiText text =>
          match (if truthy text then Gemini._extract_command text
                 else None) with
          | Some ((_ :: _) as c) => Some c
          | _ => first_good api (S from) n'
          end
      | Gemini.ApiError _ => first_good api (S from) n'
      end
  end.

(** The words a removal, a move, a copy or a kill starts with. *)
Definition destructive_heads : list pystr :=
  map str ["rm"; "del"; "mv"; "move"; "cp"; "copy"; "kill";
           "taskkill"]%string.

(** One of two strings starts with the other. *)
Definition clash (x b : pystr) : bool := startswith x b || startswith b x.

(** A service whose first request fails and whose later ones answer
    [Command: ls -la], seen from a world where nothing has happened. *)
Definition flaky_world : Gemini.LWorld :=
  Gemini.mkLWorld
    (mkWorld [] [] [] (fun _ => Completed 0 [] []))
    (fun n => match n with
              | O => Gemini.ApiError (str "deadline exceeded")
              | _ => Gemini.ApiText (str "Command: ls -la")
              end)
    0 0.

(** A service that answers [rm -rf /] to everything. *)
Definition hostile_world : Gemini.LWorld :=
  Gemini.mkLWorld
    (mkWorld [] [] [] (fun _ => Completed 0 [] []))
    (fun _ => Gemini.ApiText (str "rm -rf /"))
    0 0.

(** A world with nothing left on standard input. *)
Definition eof_world : World :=
  mkWorld [] [] [] (fun _ => Completed 0 [] []).

(** What [display_result] prints for a command that succeeded with the
    output [out]. *)
Definition success_lines (cmd out : pystr) : list pystr :=
  [nl :: LLM.rule 50; str "EXECUTED COMMAND: " ++ cmd; LLM.rule 50;
   str "Status: SUCCESS"]
  ++ (if truthy out then [str "Output:"; out]
      else [str "Output: (no output)"])
  ++ [LLM.rule 50].


(** ** Strings: trimming and case *)

Section StripLemmas.

Lemma rstrip_cons_nonspace c s :
  isspace c = false -> rstrip (c :: s) = c :: rstrip s.
Proof.
  intros Hc. simpl. rewrite Hc. now destruct (rstrip s).
Qed.

Lemma lstrip_head s :
  lstrip s = [] \/ exists c t, lstrip s = c :: t /\ isspace c = false.
Proof.
  induction s as [|c s IH]; simpl; [now left|].
  destruct (isspace c) eqn:Hc; [exact IH|].
  right. now exists c, s.
Qed.

Lemma rstrip_idem s : rstrip (rstrip s) = rstrip s.
Proof.
  induction s as [|c s IH]; [reflexivity|].
  simpl. destruct (rstrip s) as [|d t] eqn:Hr.
  - destruct (isspace c) eqn:Hc; [reflexivity|].
    simpl. now rewrite Hc.
  - change (rstrip (c :: d :: t)) with
      (match rstrip (d :: t) with
       | [] => if isspace c then [] else [c]
       | u => c :: u
       end).
    now rewrite IH.
Qed.

Lemma strip_idem s : strip (strip s) = strip s.
Proof.
  unfold strip.
  destruct (lstrip_head s) as [-> | (c & t & -> & Hc)]; [reflexivity|].
  rewrite (rstrip_cons_nonspace c t Hc).
  simpl lstrip. rewrite Hc.
  rewrite (rstrip_cons_nonspace c _ Hc).
  now rewrite rstrip_idem.
Qed.

Lemma isspace_lower_char c : isspace (lower_char c) = isspace c.
Proof. destruct c as [[] [] [] [] [] [] [] []]; reflexivity. Qed.

Lemma lower_char_idem c : lower_char (lower_char c) = lower_char c.
Proof. destruct c as [[] [] [] [] [] [] [] []]; reflexivity. Qed.

Lemma lower_idem s : lower (lower s) = lower s.
Proof.
  unfold lower. rewrite map_map.
  apply map_ext. exact lower_char_idem.
Qed.

Lemma lstrip_lower s : lstrip (lower s) = lower (lstrip s).
Proof.
  induction s as [|c s IH]; [reflexivity|].
  simpl. rewrite isspace_lower_char.
  now destruct (isspace c).
Qed.

Lemma rstrip_lower s : rstrip (lower s) = lower (rstrip s).
Proof.
  induction s as [|c s IH]; [reflexivity|].
  simpl. fold (lower s). rewrite IH, isspace_lower_char.
  destruct (rstrip s); simpl; [now destruct (isspace c)|reflexivity].
Qed.

Lemma strip_lower s : strip (lower s) = lower (strip s).
Proof. unfold strip. now rewrite lstrip_lower, rstrip_lower. Qed.

Lemma normalize_lower_strip s : normalize (lower (strip s)) = normalize s.
Proof.
  unfold normalize.
  now rewrite lower_idem, <- strip_lower, strip_idem.
Qed.

End StripLemmas.

(** The pattern trees print back to the raw strings of the source. *)
Lemma forbidden_patterns_src :
  map src forbidden_patterns =
  map str [ "rm\s+-rf\s+/"; "format(\s|$)"; "fdisk"; "dd\s+if=";
            ":\(\)\s*\{\s*:|:&\}\s*;\s*:"; "shutdown(\s|$)"; "reboot(\s|$)";
            "poweroff(\s|$)"; "init\s+[06]" ]%string.
Proof. reflexivity. Qed.

Lemma confirmable_patterns_src :
  map src confirmable_patterns =
  map str [ "rm\s+-rf\s+.+"; "rm\s+.+"; "del\s+.+"; "rmdir\s+/s\s+/q\s+.+";
            "rmdir\s+.+"; "mv\s+.+"; "chmod\s+7[0-7][0-7]";
            "chown\s+-r\s+.+" ]%string.
Proof. reflexivity. Qed.


(** ** The matcher against the relation *)

Section MatcherCorrect.

Lemma nullable_Matches r rest : nullable r rest = true -> Matches r [] rest.
Proof.
  induction r; simpl; intros H; try discriminate.
  - constructor.
  - now constructor.
  - apply andb_true_iff in H as [H1 H2].
    change (@nil ascii) with (@nil ascii ++ []). constructor; auto.
  - apply orb_true_iff in H as [H|H]; [apply MAltL|apply MAltR]; auto.
  - constructor.
  - change (@nil ascii) with (@nil ascii ++ []). constructor; auto.
    constructor.
  - constructor; auto.
Qed.

Lemma Matches_nullable r w rest :
  Matches r w rest -> w = [] -> nullable r rest = true.
Proof.
  induction 1; intros E; simpl; try discriminate; auto.
  - apply app_eq_nil in E as [-> ->]. simpl in *.
    rewrite IHMatches1, IHMatches2; auto.
  - rewrite IHMatches; auto.
  - rewrite IHMatches; auto. apply orb_true_r.
  - apply app_eq_nil in E as [-> ->]. simpl in *. auto.
Qed.

Lemma Matches_deriv r w0 rest :
  Matches r w0 rest ->
  forall c w, w0 = c :: w -> Matches (deriv r c (w ++ rest)) w rest.
Proof.
  induction 1; intros a v E; simpl; try discriminate.
  - injection E as -> <-. rewrite Ascii.eqb_refl. constructor.
  - injection E as -> <-. rewrite H. constructor.
  - injection E as -> <-.
    destruct (Ascii.eqb a nl) eqn:Ha; [|constructor].
    apply Ascii.eqb_eq in Ha. contradiction.
  - injection E as -> <-. rewrite H. constructor.
  - injection E as -> <-.
    replace (in_set cs a) with true; [constructor|].
    symmetry. apply existsb_exists. exists a. split; auto.
    apply Ascii.eqb_refl.
  - destruct w1 as [|b w1]; simpl in E.
    + subst w2.
      pose proof (Matches_nullable _ _ _ H eq_refl) as N.
      simpl in N. rewrite N.
      apply MAltR. auto.
    + injection E as -> <-.
      specialize (IHMatches1 _ _ eq_refl).
      rewrite <- app_assoc.
      destruct (nullable r1 _); [apply MAltL|]; constructor; auto.
  - apply MAltL. auto.
  - apply MAltR. auto.
  - destruct w1 as [|b w1]; simpl in E.
    + subst w2. apply (IHMatches2 _ _ eq_refl).
    + injection E as -> <-.
      specialize (IHMatches1 _ _ eq_refl).
      rewrite <- app_assoc. constructor; auto.
  - destruct w1 as [|b w1]; simpl in E.
    + subst w2. apply (IHMatches2 _ _ eq_refl).
    + injection E as -> <-.
      specialize (IHMatches1 _ _ eq_refl).
      rewrite <- app_assoc. constructor; auto.
  - auto.
Qed.

Lemma deriv_Matches r c :
  forall w rest, Matches (deriv r c (w ++ rest)) w rest ->
                 Matches r (c :: w) rest.
Proof.
  induction r; simpl; intros w rest H.
  - inversion H.
  - inversion H.
  - destruct (Ascii.eqb c0 c) eqn:E; inversion H; subst.
    apply Ascii.eqb_eq in E. subst. constructor.
  - destruct (isspace c) eqn:E; inversion H; subst. now constructor.
  - destruct (Ascii.eqb c nl) eqn:E; inversion H; subst.
    constructor. intros ->. now rewrite Ascii.eqb_refl in E.
  - destruct (in_range lo hi c) eqn:E; inversion H; subst. now constructor.
  - destruct (in_set cs c) eqn:E; inversion H; subst.
    constructor. apply existsb_exists in E as (x & Hx & Ex).
    apply Ascii.eqb_eq in Ex. now subst.
  - inversion H.
  - assert (HC : forall v, Matches (Cat (deriv r1 c (v ++ rest)) r2) v rest ->
                           Matches (Cat r1 r2) (c :: v) rest).
    { intros v Hv. inversion Hv; subst.
      change (c :: w1 ++ w2) with ((c :: w1) ++ w2).
      constructor; auto. apply IHr1. now rewrite app_assoc. }
    destruct (nullable r1 (c :: w ++ rest)) eqn:N; [|now apply HC].
    inversion H; subst; [now apply HC|].
    change (c :: w) with ([] ++ c :: w).
    constructor; [now apply nullable_Matches|auto].
  - inversion H; subst; [apply MAltL|apply MAltR]; auto.
  - inversion H; subst.
    change (c :: w1 ++ w2) with ((c :: w1) ++ w2).
    constructor; auto. apply IHr. now rewrite app_assoc.
  - inversion H; subst.
    change (c :: w1 ++ w2) with ((c :: w1) ++ w2).
    constructor; auto. apply IHr. now rewrite app_assoc.
  - constructor. auto.
Qed.

Lemma match_here_iff s :
  forall r, match_here s r = true <->
            exists w rest, s = w ++ rest /\ Matches r w rest.
Proof.
  induction s as [|c s IH]; intros r; simpl.
  - rewrite orb_false_r. split.
    + intros H. exists [], []. split; auto. now apply nullable_Matches.
    + intros (w & rest & E & H). symmetry in E.
      apply app_eq_nil in E as [-> ->].
      eapply Matches_nullable; eauto.
  - rewrite orb_true_iff, IH. split.
    + intros [H | (w & rest & -> & H)].
      * exists [], (c :: s). split; auto. now apply nullable_Matches.
      * exists (c :: w), rest. split; auto. now apply deriv_Matches.
    + intros (w & rest & E & H). destruct w as [|b w]; simpl in E.
      * subst rest. left. eapply Matches_nullable; eauto.
      * injection E as <- ->. right. exists w, rest. split; auto.
        eapply Matches_deriv; eauto.
Qed.

Lemma search_iff r s : search r s = true <-> Occurs r s.
Proof.
  unfold Occurs. induction s as [|c s IH]; cbn [search].
  - rewrite orb_false_r, (match_here_iff []). split.
    + intros (w & rest & E & H). now exists [], w, rest.
    + intros (pre & w & rest & E & H). symmetry in E.
      apply app_eq_nil in E as [-> E]. now exists w, rest.
  - rewrite orb_true_iff, IH, (match_here_iff (c :: s)). split.
    + intros [(w & rest & E & H) | (pre & w & rest & E & H)].
      * now exists [], w, rest.
      * exists (c :: pre), w, rest. split; auto. simpl. now rewrite E.
    + intros (pre & w & rest & E & H). destruct pre as [|b pre]; simpl in E.
      * left. now exists w, rest.
      * injection E as <- ->. right. now exists pre, w, rest.
Qed.

End MatcherCorrect.

(** ** Shape of the classifier *)

Section Classifier.

Lemma is_command_safe_unfold cmd :
  is_command_safe cmd =
  if hits forbidden_patterns (normalize cmd) then Forbidden
  else if hits confirmable_patterns (normalize cmd) then Confirm
  else Safe.
Proof. reflexivity. Qed.

Lemma hits_intro patterns text p :
  In p patterns -> search p text = true -> hits patterns text = true.
Proof.
  intros Hin Hs. apply existsb_exists. now exists p.
Qed.

Lemma forbidden_hit cmd p :
  In p forbidden_patterns -> search p (normalize cmd) = true ->
  is_command_safe cmd = Forbidden.
Proof.
  intros Hin Hs. rewrite is_command_safe_unfold.
  now rewrite (hits_intro _ _ _ Hin Hs).
Qed.

Lemma confirmable_hit cmd p :
  In p confirmable_patterns -> search p (normalize cmd) = true ->
  is_command_safe cmd =
  if hits forbidden_patterns (normalize cmd) then Forbidden else Confirm.
Proof.
  intros Hin Hs. rewrite is_command_safe_unfold.
  now rewrite (hits_intro _ _ _ Hin Hs).
Qed.

Lemma is_command_safe_normalize a b :
  normalize a = normalize b -> is_command_safe a = is_command_safe b.
Proof.
  intros E. rewrite !is_command_safe_unfold. now rewrite E.
Qed.

End Classifier.

(** ** Shape of the executor *)

Section Executor.

Lemma strip_if_nonempty s : match s with [] => [] | _ => strip s end = strip s.
Proof. now destruct s. Qed.

Lemma run_command_Completed cmd w rc out err :
  shell w cmd = Completed rc out err ->
  run_command cmd w = (Return (completed cmd rc out err), ran cmd w).
Proof.
  intros E. unfold run_command, bind, subprocess_run, ret. rewrite E.
  unfold completed. now rewrite !strip_if_nonempty.
Qed.

Lemma run_command_world cmd w : snd (run_command cmd w) = ran cmd w.
Proof.
  unfold run_command, bind, subprocess_run, ret.
  now destruct (shell w cmd).
Qed.

Lemma run_command_returns cmd w :
  exists r, run_command cmd w = (Return r, ran cmd w) /\ command r = cmd /\
            (success r = true ->
             exists out err, shell w cmd = Completed 0 out err /\
                             r = completed cmd 0 out err).
Proof.
  destruct (shell w cmd) as [rc out err| |msg] eqn:E.
  - exists (completed cmd rc out err).
    split; [now apply run_command_Completed|]. split; [reflexivity|].
    simpl. intros H. apply Z.eqb_eq in H. subst rc. now exists out, err.
  - eexists. unfold run_command, bind, subprocess_run, ret. rewrite E.
    split; [reflexivity|]. split; [reflexivity|]. discriminate.
  - eexists. unfold run_command, bind, subprocess_run, ret. rewrite E.
    split; [reflexivity|]. split; [reflexivity|]. discriminate.
Qed.

Lemma execute_Forbidden cmd w :
  is_command_safe cmd = Forbidden ->
  execute_command cmd w = (Return (blocked cmd), w).
Proof. intros E. unfold execute_command. now rewrite E. Qed.

Lemma execute_Safe cmd w :
  is_command_safe cmd = Safe -> execute_command cmd w = run_command cmd w.
Proof. intros E. unfold execute_command. now rewrite E. Qed.

Lemma execute_Confirm cmd w line rest :
  is_command_safe cmd = Confirm -> stdin w = line :: rest ->
  execute_command cmd w =
  if codes_eqb (upper (strip line)) YES
  then run_command cmd (asked cmd rest w)
  else (Return (cancelled cmd), asked cmd rest w).
Proof.
  intros E Hin. unfold execute_command. rewrite E.
  unfold bind, print, input. simpl. rewrite Hin.
  now destruct (codes_eqb (upper (strip line)) YES).
Qed.

Lemma execute_Confirm_eof cmd w :
  is_command_safe cmd = Confirm -> stdin w = [] ->
  execute_command cmd w = (Raise EOFError, asked cmd [] w).
Proof.
  intros E Hin. unfold execute_command. rewrite E.
  unfold bind, print, input. simpl. now rewrite Hin.
Qed.

Lemma codes_eqb_true a b : codes_eqb a b = true <-> a = b.
Proof.
  unfold codes_eqb. destruct (list_eq_dec N.eq_dec a b); split; auto.
  discriminate.
Qed.

Lemma app_one_neq {A : Type} (l : list A) (x : A) : l ++ [x] <> l.
Proof.
  intros E. apply (f_equal (@List.length A)) in E.
  rewrite List.length_app in E. simpl in E. lia.
Qed.

(** Whatever happens, the shell has been handed nothing, or the command
    exactly as it came in. *)
Lemma spawned_after cmd w :
  spawned (snd (execute_command cmd w)) = spawned w \/
  spawned (snd (execute_command cmd w)) = spawned w ++ [cmd].
Proof.
  destruct (is_command_safe cmd) eqn:E.
  - right. rewrite (execute_Safe _ _ E), run_command_world. reflexivity.
  - destruct (stdin w) as [|line rest] eqn:Hin.
    + left. now rewrite (execute_Confirm_eof _ _ E Hin).
    + rewrite (execute_Confirm _ _ _ _ E Hin).
      destruct (codes_eqb (upper (strip line)) YES).
      * right. rewrite run_command_world. reflexivity.
      * now left.
  - left. now rewrite (execute_Forbidden _ _ E).
Qed.

End Executor.

(** ** A segment that survives normalisation *)

Section Segments.

Lemma lstrip_app_nonspace a c t :
  isspace c = false -> lstrip (a ++ c :: t) = lstrip a ++ c :: t.
Proof.
  intros Hc. induction a as [|x a IH]; simpl.
  - now rewrite Hc.
  - now destruct (isspace x).
Qed.

Lemma rstrip_app_nonspace a c t :
  isspace c = false -> rstrip (a ++ c :: t) = a ++ c :: rstrip t.
Proof.
  intros Hc. induction a as [|x a IH].
  - now apply rstrip_cons_nonspace.
  - change (rstrip ((x :: a) ++ c :: t)) with
      (match rstrip (a ++ c :: t) with
       | [] => if isspace x then [] else [x]
       | u => x :: u
       end).
    rewrite IH. now destruct a.
Qed.

(** A lower-case segment that starts and ends with a visible character
    is still there, in one piece, after [command.lower().strip()]. *)
Lemma normalize_around a c1 u c2 b :
  isspace c1 = false -> isspace c2 = false ->
  lower (c1 :: u ++ [c2]) = c1 :: u ++ [c2] ->
  normalize (a ++ (c1 :: u ++ [c2]) ++ b) =
  lstrip (lower a) ++ (c1 :: u ++ [c2]) ++ rstrip (lower b).
Proof.
  intros H1 H2 Hl. unfold normalize, lower.
  rewrite !map_app. fold (lower a) (lower b) (lower (c1 :: u ++ [c2])).
  rewrite Hl. unfold strip.
  change ((c1 :: u ++ [c2]) ++ lower b) with (c1 :: (u ++ [c2]) ++ lower b).
  rewrite (lstrip_app_nonspace _ _ _ H1).
  replace (lstrip (lower a) ++ c1 :: (u ++ [c2]) ++ lower b)
    with ((lstrip (lower a) ++ c1 :: u) ++ c2 :: lower b)
    by (rewrite <- !app_assoc; reflexivity).
  rewrite (rstrip_app_nonspace _ _ _ H2).
  simpl. rewrite <- !app_assoc. reflexivity.
Qed.


Lemma search_app_here r pre s :
  match_here s r = true -> search r (pre ++ s) = true.
Proof.
  intros H. induction pre as [|x pre IH]; cbn [app search].
  - destruct s; cbn [search]; now rewrite H.
  - rewrite IH. apply orb_true_r.
Qed.


(** So is [shutdown] followed by an argument. *)
Lemma shutdown_now_anywhere pre post :
  is_command_safe (pre ++ str "shutdown now" ++ post) = Forbidden.
Proof.
  apply (forbidden_hit _ (nth 5 forbidden_patterns Void));
    [do 5 right; now left|].
  change (str "shutdown now") with ("s" :: str "hutdown no" ++ ["w"]).
  rewrite normalize_around by reflexivity.
  apply search_app_here. cbn. reflexivity.
Qed.

End Segments.

(** ** The classifier on the documented commands *)

Section ClassifierClaims.



(** C6: a command on which some forbidden pattern is found is answered
    with [False] whatever the confirmable patterns find on it, since the
    forbidden loop runs, and returns, first. *)
Theorem forbidden_tier_wins cmd p :
  In p forbidden_patterns -> search p (normalize cmd) = true ->
  is_command_safe cmd = Forbidden.
Proof.
  intros Hin Hs. rewrite is_command_safe_unfold.
  replace (hits forbidden_patterns (normalize cmd)) with true; [reflexivity|].
  symmetry. eapply hits_intro; eauto.
Qed.

Lemma forbidden_tier_wins_witness :
  In (nth 0 forbidden_patterns Void) forbidden_patterns /\
  search (nth 0 forbidden_patterns Void)
         (normalize (str "rm -rf / && mv a b")) = true /\
  hits confirmable_patterns (normalize (str "rm -rf / && mv a b")) = true /\
  is_command_safe (str "rm -rf / && mv a b") = Forbidden.
Proof.
  assert (Hin : In (nth 0 forbidden_patterns Void) forbidden_patterns)
    by (simpl; left; reflexivity).
  assert (Hs : search (nth 0 forbidden_patterns Void)
                      (normalize (str "rm -rf / && mv a b")) = true)
    by (vm_compute; reflexivity).
  split; [exact Hin|]. split; [exact Hs|].
  split; [vm_compute; reflexivity|].
  exact (forbidden_tier_wins (str "rm -rf / && mv a b") _ Hin Hs).
Defined.

(** C7 on the code: [mkfs.ext4 /dev/sda1] is answered with [True] by
    [AiNuxLLM.is_command_safe], although [mkfs] is in the class's own
    list of dangerous commands and the classifier of [ainux.py] refuses
    it. *)
Theorem mkfs_passes_as_safe :
  is_command_safe (str "mkfs.ext4 /dev/sda1") = Safe /\
  hits forbidden_patterns (normalize (str "mkfs.ext4 /dev/sda1")) = false /\
  In (str "mkfs") dangerous_commands /\
  AiNux.is_command_safe (str "mkfs.ext4 /dev/sda1") = false.
Proof.
  split; [vm_compute; reflexivity|]. split; [vm_compute; reflexivity|].
  split; [|vm_compute; reflexivity].
  unfold dangerous_commands. simpl. do 5 right. left. reflexivity.
Qed.

(** C8: the verdict on a command is the verdict on its trimmed,
    lower-cased form, [RM -RF /] and [rm -rf /] get the same verdict,
    and what reaches the shell, if anything does, is the command as it
    was given. *)
Theorem classifier_ignores_case cmd w :
  is_command_safe cmd = is_command_safe (lower (strip cmd)) /\
  is_command_safe (str "RM -RF /") = is_command_safe (str "rm -rf /") /\
  (spawned (snd (execute_command cmd w)) = spawned w \/
   spawned (snd (execute_command cmd w)) = spawned w ++ [cmd]).
Proof.
  split; [|split].
  - apply is_command_safe_normalize. symmetry. apply normalize_lower_strip.
  - vm_compute. reflexivity.
  - apply spawned_after.
Qed.

(** C9: the patterns are looked for in the whole normalised command.
    If a forbidden pattern occurs anywhere in it the answer is [False];
    if a confirmable pattern occurs anywhere in it the answer is never
    [True]: it is ["confirm"], unless a forbidden pattern occurs as
    well.  So [shutdown now] is refused with any text before it, a pipe
    from a harmless command included, and any text after it. *)
Theorem dangerous_text_anywhere :
  (forall cmd p,
      Occurs p (normalize cmd) ->
      (In p forbidden_patterns -> is_command_safe cmd = Forbidden) /\
      (In p confirmable_patterns ->
       is_command_safe cmd <> Safe /\
       (hits forbidden_patterns (normalize cmd) = false ->
        is_command_safe cmd = Confirm))) /\
  (forall pre post,
      is_command_safe (pre ++ str "shutdown now" ++ post) = Forbidden) /\
  is_command_safe (str "ls | shutdown now") = Forbidden.
Proof.
  split; [|split].
  - intros cmd p Hocc. apply search_iff in Hocc. split; intros Hin.
    + eapply forbidden_hit; eauto.
    + rewrite (confirmable_hit _ _ Hin Hocc).
      destruct (hits forbidden_patterns (normalize cmd)); split;
        congruence.
  - exact shutdown_now_anywhere.
  - exact (shutdown_now_anywhere (str "ls | ") []).
Qed.

Lemma dangerous_text_anywhere_witness :
  Occurs (nth 6 forbidden_patterns Void)
         (normalize (str "cat notes.txt | reboot")) /\
  In (nth 6 forbidden_patterns Void) forbidden_patterns /\
  is_command_safe (str "cat notes.txt | reboot") = Forbidden.
Proof.
  assert (Hocc : Occurs (nth 6 forbidden_patterns Void)
                        (normalize (str "cat notes.txt | reboot")))
    by (apply search_iff; vm_compute; reflexivity).
  assert (Hin : In (nth 6 forbidden_patterns Void) forbidden_patterns)
    by (simpl; do 6 right; left; reflexivity).
  split; [exact Hocc|]. split; [exact Hin|].
  exact (proj1 (proj1 dangerous_text_anywhere _ _ Hocc) Hin).
Defined.

End ClassifierClaims.

(** ** What a confirmable pattern needs in order to match *)

Section ConfirmableShape.

Ltac inv H := inversion H; subst; clear H.

Ltac crack :=
  repeat match goal with
         | H : Matches (Cat _ _) _ _ |- _ => inv H
         | H : Matches (Lit _) _ _ |- _ => inv H
         | H : Matches (Plus _) _ _ |- _ => inv H
         | H : Matches Space _ _ |- _ => inv H
         | H : Matches Dot _ _ |- _ => inv H
         | H : Matches (Range _ _) _ _ |- _ => inv H
         end.

Ltac split_runs :=
  repeat match goal with
         | H : Matches (Star _) ?v _ |- _ => is_var v; destruct v; clear H
         end.

Ltac after name :=
  exists (str name); do 3 eexists; split; [reflexivity|assumption].

(** Every match of a confirmable pattern holds the command name, then a
    whitespace character, then at least one more character. *)
Lemma confirmable_needs_argument p w rest :
  In p confirmable_patterns -> Matches p w rest ->
  exists name c d tail,
    w = name ++ c :: d :: tail /\ isspace c = true.
Proof.
  intros Hin HM. simpl in Hin.
  destruct Hin as [<-|[<-|[<-|[<-|[<-|[<-|[<-|[<-|[]]]]]]]]];
    cbn in HM; crack; split_runs; simpl.
  all: first [ after "rm"%string | after "del"%string | after "rmdir"%string
             | after "mv"%string | after "chmod"%string
             | after "chown"%string ].
Qed.

End ConfirmableShape.

(** ** The bare command names *)

Section BareNames.

(** C10: a bare [rm], [del], [rmdir] or [mv], with or without blanks
    around it, is answered with [True]; every match of a confirmable
    pattern holds a whitespace character and a character after it, and
    with an argument the four commands are answered with ["confirm"]. *)
Theorem bare_names_are_safe cmd :
  In (strip cmd) (map str ["rm"; "del"; "rmdir"; "mv"]%string) ->
  is_command_safe cmd = Safe /\
  (forall p w rest,
      In p confirmable_patterns -> Matches p w rest ->
      exists name c d tail, w = name ++ c :: d :: tail /\ isspace c = true) /\
  map is_command_safe (map str ["rm x"; "del x"; "rmdir x"; "mv x y"]%string)
  = [Confirm; Confirm; Confirm; Confirm].
Proof.
  intros Hin. split; [|split].
  - rewrite <- (is_command_safe_normalize (lower (strip cmd)) cmd)
      by apply normalize_lower_strip.
    simpl in Hin.
    destruct Hin as [<-|[<-|[<-|[<-|[]]]]]; vm_compute; reflexivity.
  - exact confirmable_needs_argument.
  - vm_compute. reflexivity.
Qed.

Lemma bare_names_are_safe_witness :
  In (strip (str "  rm ")) (map str ["rm"; "del"; "rmdir"; "mv"]%string) /\
  is_command_safe (str "  rm ") = Safe.
Proof.
  assert (H : In (strip (str "  rm "))
                 (map str ["rm"; "del"; "rmdir"; "mv"]%string))
    by (vm_compute; left; reflexivity).
  split; [exact H|].
  exact (proj1 (bare_names_are_safe (str "  rm ") H)).
Defined.

End BareNames.

(** ** The executor *)

Section ExecutorClaims.

(** C2, as the specification has it, fails on a command that exits with
    0 after writing to standard error. *)
Lemma success_with_stderr_breaks_invariant :
  exists r w',
    execute_command (str "ls") warn_world = (Return r, w') /\
    ~ success_invariant r.
Proof.
  eexists. eexists. split; [vm_compute; reflexivity|].
  unfold success_invariant. simpl. intros H.
  destruct (H eq_refl) as [_ E]. discriminate E.
Qed.

(** C2, amended: when [execute_command] returns a result with
    [success] true, the shell was run on the command and exited with 0:
    [return_code] is 0, and [error] is the trimmed standard error,
    empty or not. *)
Theorem success_means_exit_zero cmd w r w' :
  execute_command cmd w = (Return r, w') ->
  success r = true ->
  return_code r = Some 0%Z /\
  exists out err,
    shell w cmd = Completed 0 out err /\
    output r = strip out /\ error r = strip err.
Proof.
  intros Hex Hs.
  assert (Hrun : forall w0, shell w0 = shell w ->
                            run_command cmd w0 = (Return r, w') ->
                            return_code r = Some 0%Z /\
                            exists out err,
                              shell w cmd = Completed 0 out err /\
                              output r = strip out /\ error r = strip err).
  { intros w0 Hsh Hrun.
    destruct (run_command_returns cmd w0) as (r0 & E & _ & Hok).
    rewrite E in Hrun. injection Hrun as -> _.
    destruct (Hok Hs) as (out & err & Hc & ->).
    split; [reflexivity|]. exists out, err. now rewrite <- Hsh. }
  destruct (is_command_safe cmd) eqn:E.
  - rewrite (execute_Safe _ _ E) in Hex. now apply (Hrun w).
  - destruct (stdin w) as [|line rest] eqn:Hin.
    + rewrite (execute_Confirm_eof _ _ E Hin) in Hex. discriminate.
    + rewrite (execute_Confirm _ _ _ _ E Hin) in Hex.
      destruct (codes_eqb (upper (strip line)) YES).
      * now apply (Hrun (asked cmd rest w)).
      * injection Hex as <- _. discriminate.
  - rewrite (execute_Forbidden _ _ E) in Hex.
    injection Hex as <- _. discriminate.
Qed.

Lemma success_means_exit_zero_witness :
  exists r w',
    execute_command (str "ls") warn_world = (Return r, w') /\
    success r = true /\
    return_code r = Some 0%Z /\ error r = str "warning: deprecated".
Proof.
  eexists. eexists.
  assert (Hex : execute_command (str "ls") warn_world =
                (Return (completed (str "ls") 0 (str "ok")
                                   (str "warning: deprecated")),
                 ran (str "ls") warn_world))
    by (vm_compute; reflexivity).
  split; [exact Hex|]. split; [reflexivity|].
  split; [|reflexivity].
  exact (proj1 (success_means_exit_zero _ _ _ _ Hex eq_refl)).
Defined.

(** C3: when the command reaches the shell and the shell process runs
    to completion, the result has [success] equal to
    [returncode == 0], [output] and [error] the trimmed standard output
    and standard error, and [return_code] the exit code; standard error
    plays no part in [success]. *)
Theorem exit_code_decides_success cmd w rc out err :
  reaches_shell cmd w ->
  shell w cmd = Completed rc out err ->
  exists w',
    execute_command cmd w =
    (Return (mkResult (rc =? 0)%Z (strip out) (strip err) cmd (Some rc)), w')
    /\ spawned w' = spawned w ++ [cmd].
Proof.
  unfold reaches_shell. intros Hr Hc.
  destruct (is_command_safe cmd) eqn:E; [| |contradiction].
  - exists (ran cmd w). rewrite (execute_Safe _ _ E).
    split; [now apply run_command_Completed|reflexivity].
  - destruct Hr as (line & rest & Hin & Hyes).
    exists (ran cmd (asked cmd rest w)).
    rewrite (execute_Confirm _ _ _ _ E Hin).
    apply codes_eqb_true in Hyes. rewrite Hyes.
    split; [now apply run_command_Completed|reflexivity].
Qed.

Lemma exit_code_decides_success_witness :
  reaches_shell (str "ls") warn_world /\
  exists w',
    execute_command (str "ls") warn_world =
    (Return (mkResult true (str "ok") (str "warning: deprecated")
                      (str "ls") (Some 0%Z)), w').
Proof.
  assert (Hr : reaches_shell (str "ls") warn_world)
    by (vm_compute; exact I).
  split; [exact Hr|].
  destruct (exit_code_decides_success (str "ls") warn_world 0
              (str "ok") (str "warning: deprecated") Hr eq_refl)
    as (w' & Hex & _).
  exists w'. exact Hex.
Defined.

(** C4: on a command answered with [False] the method returns at once:
    [success] false, [output] empty, [error] the blocking message with
    the command after it, the command echoed, no [return_code]; the
    world is as it was, so nothing was run, asked or printed. *)
Theorem forbidden_never_spawns cmd w :
  is_command_safe cmd = Forbidden ->
  execute_command cmd w =
  (Return (mkResult false []
                    (str "Command blocked for security reasons: " ++ cmd)
                    cmd None), w) /\
  spawned (snd (execute_command cmd w)) = spawned w.
Proof.
  intros E. rewrite (execute_Forbidden _ _ E). split; reflexivity.
Qed.

Lemma forbidden_never_spawns_witness :
  is_command_safe (str "rm -rf /") = Forbidden /\
  spawned (snd (execute_command (str "rm -rf /") yes_world)) = [].
Proof.
  assert (E : is_command_safe (str "rm -rf /") = Forbidden)
    by (vm_compute; reflexivity).
  split; [exact E|].
  exact (proj2 (forbidden_never_spawns (str "rm -rf /") yes_world E)).
Defined.

(** C5, as the specification has it, fails: the answer [" yes "], with
    blanks around it, is not the token under a case-insensitive exact
    comparison, and the command is run all the same. *)
Lemma padded_yes_is_accepted :
  is_command_safe (str "rm -rf testdir") = Confirm /\
  stdin yes_world = [str " yes "] /\
  ~ ci_equal (str " yes ") (str "YES") /\
  spawned (snd (execute_command (str "rm -rf testdir") yes_world))
  = [str "rm -rf testdir"].
Proof.
  split; [vm_compute; reflexivity|]. split; [reflexivity|].
  split; [|vm_compute; reflexivity].
  unfold ci_equal. vm_compute. discriminate.
Qed.

(** C5, amended: on a command answered with ["confirm"] the answer
    read from standard input is first trimmed; the command is handed to
    the shell exactly when the trimmed answer is [YES] up to case, and
    on any other answer the method returns [success] false with the
    cancellation message and the command after it, and runs nothing. *)
Theorem confirm_gate cmd w line rest :
  is_command_safe cmd = Confirm ->
  stdin w = line :: rest ->
  (ci_equal (strip line) (str "YES") <->
   spawned (snd (execute_command cmd w)) = spawned w ++ [cmd]) /\
  (~ ci_equal (strip line) (str "YES") ->
   fst (execute_command cmd w) =
   Return (mkResult false []
                    (str "Execution cancelled by user: " ++ cmd) cmd None)
   /\ spawned (snd (execute_command cmd w)) = spawned w).
Proof.
  intros E Hin. rewrite (execute_Confirm _ _ _ _ E Hin).
  unfold ci_equal. change (upper (str "YES")) with YES.
  destruct (codes_eqb (upper (strip line)) YES) eqn:Hy.
  - apply codes_eqb_true in Hy. split.
    + split; [intros _|intros _; exact Hy].
      rewrite run_command_world. reflexivity.
    + intros Hn. contradiction.
  - assert (Hn : upper (strip line) <> YES).
    { intros Hc. apply codes_eqb_true in Hc. congruence. }
    split.
    + split; [intros Hc; contradiction|].
      simpl. intros Hc. symmetry in Hc. now apply app_one_neq in Hc.
    + intros _. split; reflexivity.
Qed.

Lemma confirm_gate_witness :
  is_command_safe (str "rm -rf testdir") = Confirm /\
  stdin no_world = [str "no"] /\
  fst (execute_command (str "rm -rf testdir") no_world) =
  Return (mkResult false []
            (str "Execution cancelled by user: rm -rf testdir")
            (str "rm -rf testdir") None) /\
  spawned (snd (execute_command (str "rm -rf testdir") no_world)) = [].
Proof.
  assert (E : is_command_safe (str "rm -rf testdir") = Confirm)
    by (vm_compute; reflexivity).
  split; [exact E|]. split; [reflexivity|].
  apply (proj2 (confirm_gate (str "rm -rf testdir") no_world (str "no") []
                             E eq_refl)).
  unfold ci_equal. vm_compute. discriminate.
Defined.

End ExecutorClaims.

(** * Part two: the parsers, the service wrapper and the display *)

(** ** Small facts on strings *)

Section PyFacts.

Lemma str_eqb_eq a b : str_eqb a b = true <-> a = b.
Proof.
  revert b. induction a as [|x a IH]; intros [|y b]; simpl;
    try (split; [discriminate|discriminate]); try tauto.
  rewrite andb_true_iff, Ascii.eqb_eq, IH. split.
  - intros [-> ->]. reflexivity.
  - intros E. injection E as -> ->. tauto.
Qed.

Lemma str_eqb_refl a : str_eqb a a = true.
Proof. now apply str_eqb_eq. Qed.

Lemma in_list_In x l : in_list x l = true <-> In x l.
Proof.
  unfold in_list. rewrite existsb_exists. split.
  - intros (y & Hy & E). apply str_eqb_eq in E. now subst.
  - intros H. exists x. split; [exact H|apply str_eqb_refl].
Qed.

Lemma get_Some_In {V : Type} (d : list (pystr * V)) key v :
  get d key = Some v -> In (key, v) d.
Proof.
  induction d as [|[k u] d IH]; simpl; [discriminate|].
  destruct (str_eqb k key) eqn:E.
  - apply str_eqb_eq in E. intros H. injection H as ->. subst. now left.
  - intros H. right. auto.
Qed.

Lemma starts_with_app p s : AiNux.starts_with p (p ++ s) = true.
Proof.
  induction p as [|x p IH]; simpl; [reflexivity|].
  now rewrite Ascii.eqb_refl, IH.
Qed.

Lemma starts_with_iff p s :
  AiNux.starts_with p s = true <-> exists t, s = p ++ t.
Proof.
  split.
  - revert s. induction p as [|x p IH]; intros s H; simpl in H.
    + now exists s.
    + destruct s as [|y s]; [discriminate|].
      apply andb_true_iff in H as [E H]. apply Ascii.eqb_eq in E. subst y.
      destruct (IH _ H) as (t & ->). now exists t.
  - intros (t & ->). apply starts_with_app.
Qed.

Lemma contains_iff p s :
  AiNux.contains p s = true <-> exists a b, s = a ++ p ++ b.
Proof.
  induction s as [|y s IH]; cbn [AiNux.contains].
  - rewrite orb_false_r, starts_with_iff. split.
    + intros (t & E). now exists [], t.
    + intros (a & b & E). symmetry in E.
      apply app_eq_nil in E as [-> E]. now exists b.
  - rewrite orb_true_iff, IH, starts_with_iff. split.
    + intros [(t & E)|(a & b & ->)].
      * now exists [], t.
      * now exists (y :: a), b.
    + intros (a & b & E). destruct a as [|x a]; simpl in E.
      * left. now exists b.
      * injection E as <- ->. right. now exists a, b.
Qed.

(** A word with visible ends is still there after [strip]. *)
Lemma strip_keeps a c1 u c2 b :
  isspace c1 = false -> isspace c2 = false ->
  strip (a ++ (c1 :: u ++ [c2]) ++ b) =
  lstrip a ++ (c1 :: u ++ [c2]) ++ rstrip b.
Proof.
  intros H1 H2. unfold strip.
  change ((c1 :: u ++ [c2]) ++ b) with (c1 :: (u ++ [c2]) ++ b).
  rewrite (lstrip_app_nonspace _ _ _ H1).
  replace (lstrip a ++ c1 :: (u ++ [c2]) ++ b)
    with ((lstrip a ++ c1 :: u) ++ c2 :: b)
    by (rewrite <- !app_assoc; reflexivity).
  rewrite (rstrip_app_nonspace _ _ _ H2).
  simpl. rewrite <- !app_assoc. reflexivity.
Qed.

Lemma strip_keeps_one a c b :
  isspace c = false -> strip (a ++ [c] ++ b) = lstrip a ++ [c] ++ rstrip b.
Proof.
  intros H. unfold strip. simpl.
  rewrite (lstrip_app_nonspace _ _ _ H).
  now rewrite (rstrip_app_nonspace _ _ _ H).
Qed.

Lemma strip_keeps_word a w b :
  visible_ends w = true ->
  exists a' b', strip (a ++ w ++ b) = a' ++ w ++ b'.
Proof.
  destruct w as [|c1 w]; [discriminate|].
  unfold visible_ends. intros H. apply andb_true_iff in H as [H1 H2].
  apply negb_true_iff in H1, H2.
  destruct (exists_last (l := c1 :: w)) as (u & c2 & E); [discriminate|].
  rewrite E in H2 |- *. rewrite last_last in H2.
  destruct u as [|x u]; simpl in E.
  - injection E as -> ->. exists (lstrip a), (rstrip b).
    now apply strip_keeps_one.
  - injection E as <- ->. exists (lstrip a), (rstrip b).
    now apply strip_keeps.
Qed.

Lemma lstrip_blank s : forallb isspace s = true -> lstrip s = [].
Proof.
  induction s as [|c s IH]; simpl; [reflexivity|].
  intros H. apply andb_true_iff in H as [-> H]. auto.
Qed.

Lemma strip_blank s : forallb isspace s = true -> strip s = [].
Proof. intros H. unfold strip. now rewrite lstrip_blank. Qed.

Lemma forallb_lower_isspace s :
  forallb isspace (lower s) = forallb isspace s.
Proof.
  induction s as [|c s IH]; simpl; [reflexivity|].
  now rewrite isspace_lower_char, IH.
Qed.

Lemma lstrip_suffix s : exists p, s = p ++ lstrip s.
Proof.
  induction s as [|c s (p & IH)]; simpl; [now exists []|].
  destruct (isspace c); [|now exists []].
  exists (c :: p). simpl. now rewrite <- IH.
Qed.

Lemma rstrip_prefix s : exists q, s = rstrip s ++ q.
Proof.
  induction s as [|c s (q & IH)]; simpl; [now exists []|].
  destruct (rstrip s) as [|d t] eqn:E.
  - destruct (isspace c); [now exists (c :: s)|].
    exists s. reflexivity.
  - exists q. simpl. f_equal. exact IH.
Qed.

Lemma strip_infix s : exists p q, s = p ++ strip s ++ q.
Proof.
  destruct (lstrip_suffix s) as (p & Hp).
  destruct (rstrip_prefix (lstrip s)) as (q & Hq).
  exists p, q. unfold strip. now rewrite <- Hq.
Qed.

Lemma length_rstrip s : List.length (rstrip s) <= List.length s.
Proof.
  destruct (rstrip_prefix s) as (q & E).
  rewrite E at 2. rewrite List.length_app. lia.
Qed.

Lemma length_lstrip s : List.length (lstrip s) <= List.length s.
Proof.
  destruct (lstrip_suffix s) as (q & E).
  rewrite E at 2. rewrite List.length_app. lia.
Qed.

Lemma length_strip s : List.length (strip s) <= List.length s.
Proof.
  unfold strip. pose proof (length_rstrip (lstrip s)).
  pose proof (length_lstrip s). lia.
Qed.

Lemma app_same_length {A : Type} (a a' b b' : list A) :
  List.length a = List.length a' -> a ++ b = a' ++ b' -> a = a' /\ b = b'.
Proof.
  revert a'. induction a as [|x a IH]; intros [|y a'] L E; simpl in *;
    try discriminate; [now split|].
  injection E as -> E. injection L as L.
  destruct (IH _ L E) as [-> ->]. now split.
Qed.

Lemma lower_infix s t :
  (exists p q, lower s = p ++ t ++ q) -> lower t = t.
Proof.
  intros (p & q & E).
  assert (H : lower (lower s) = lower s) by apply lower_idem.
  rewrite E in H. unfold lower in H. rewrite !map_app in H.
  apply app_same_length in H; [|now rewrite length_map].
  destruct H as [_ H].
  apply app_same_length in H; [|now rewrite length_map].
  now destruct H.
Qed.

End PyFacts.

(** ** The backtracking matcher *)

Section RxFacts.

Import Rx.

Lemma orelse_Some {A : Type} (x y : option A) r :
  orelse x y = Some r -> x = Some r \/ (x = None /\ y = Some r).
Proof. destruct x; simpl; intros H; [left|right]; auto. Qed.

Lemma many_calls {A : Type} a s (k : pystr -> option A) r :
  many a s k = Some r ->
  exists p s', s = p ++ s' /\ k s' = Some r.
Proof.
  induction s as [|c s IH]; simpl; intros H.
  - now exists [], [].
  - destruct (accepts a c); [|now exists [], (c :: s)].
    apply orelse_Some in H as [H|[_ H]]; [|now exists [], (c :: s)].
    destruct (IH H) as (p & s' & -> & Hk). now exists (c :: p), s'.
Qed.

Lemma many_never_fails {A : Type} a s (k : pystr -> option A) :
  (forall s', k s' <> None) -> many a s k <> None.
Proof.
  intros Hk. induction s as [|c s IH]; simpl; [apply Hk|].
  destruct (accepts a c); [|apply Hk].
  destruct (many a s k); [discriminate|contradiction].
Qed.

Lemma consumed_app p s : consumed (p ++ s) s = p.
Proof.
  unfold consumed. rewrite List.length_app.
  replace (List.length p + List.length s - List.length s)
    with (List.length p) by lia.
  rewrite firstn_app, Nat.sub_diag, firstn_all. simpl.
  apply app_nil_r.
Qed.

(** A successful run has called its continuation on a suffix of the
    subject, with the group it was given or with a piece of what it
    consumed. *)
Lemma run_calls {A : Type} p :
  forall s g (k : pystr -> option pystr -> option A) r,
    run p s g k = Some r ->
    exists pre s' g',
      s = pre ++ s' /\ k s' g' = Some r /\
      (g' = g \/ exists a t b, g' = Some t /\ pre = a ++ t ++ b).
Proof.
  induction p; intros s g k r H; simpl in H.
  - exists [], s, g. auto.
  - destruct s as [|c s]; [discriminate|].
    destruct (accepts a c); [|discriminate].
    exists [c], s, g. auto.
  - apply many_calls in H as (pre & s' & -> & H).
    exists pre, s', g. auto.
  - destruct s as [|c s]; [discriminate|].
    destruct (accepts a c); [|discriminate].
    apply many_calls in H as (pre & s' & -> & H).
    exists (c :: pre), s', g. auto.
  - destruct s as [|c s]; [exists [], [], g; auto|].
    destruct (accepts a c); [|exists [], (c :: s), g; auto].
    apply orelse_Some in H as [H|[_ H]].
    + exists [c], s, g. auto.
    + exists [], (c :: s), g. auto.
  - apply IHp in H as (pre & s' & g' & -> & H & _).
    rewrite consumed_app in H.
    exists pre, s', (Some pre). split; [reflexivity|]. split; [exact H|].
    right. exists [], pre, []. now rewrite app_nil_r.
  - apply IHp1 in H as (pre1 & s1 & g1 & -> & H & G1).
    apply IHp2 in H as (pre2 & s2 & g2 & -> & H & G2).
    exists (pre1 ++ pre2), s2, g2.
    split; [now rewrite app_assoc|]. split; [exact H|].
    destruct G2 as [->|(a & t & b & -> & ->)].
    + destruct G1 as [->|(a & t & b & -> & ->)]; [now left|].
      right. exists a, t, (b ++ pre2). now rewrite <- !app_assoc.
    + right. exists (pre1 ++ a), t, b. now rewrite <- !app_assoc.
  - apply orelse_Some in H as [H|[_ H]]; eauto.
Qed.

(** With a group on every way through, the continuation gets a group. *)
Lemma run_sets_group {A : Type} p :
  sets_group p = true ->
  forall s g (k : pystr -> option pystr -> option A) r,
    run p s g k = Some r ->
    exists pre s' t a b,
      s = pre ++ s' /\ k s' (Some t) = Some r /\ pre = a ++ t ++ b.
Proof.
  induction p; simpl; intros Hs s g k r H; try discriminate.
  - apply run_calls in H as (pre & s' & g' & -> & H & _).
    rewrite consumed_app in H.
    exists pre, s', pre, [], []. now rewrite app_nil_r.
  - destruct (sets_group p1) eqn:S1.
    + apply (IHp1 eq_refl) in H as (pre1 & s1 & t & a & b & -> & H & ->).
      apply run_calls in H as (pre2 & s2 & g2 & -> & H & G2).
      destruct G2 as [->|(a' & t' & b' & -> & ->)].
      * exists ((a ++ t ++ b) ++ pre2), s2, t, a, (b ++ pre2).
        split; [now rewrite <- !app_assoc|]. split; [exact H|].
        now rewrite <- !app_assoc.
      * exists ((a ++ t ++ b) ++ a' ++ t' ++ b'), s2, t',
          ((a ++ t ++ b) ++ a'), b'.
        split; [now rewrite <- !app_assoc|]. split; [exact H|].
        now rewrite <- !app_assoc.
    + simpl in Hs.
      apply run_calls in H as (pre1 & s1 & g1 & -> & H & _).
      apply (IHp2 Hs) in H as (pre2 & s2 & t & a & b & -> & H & ->).
      exists (pre1 ++ a ++ t ++ b), s2, t, (pre1 ++ a), b.
      split; [now rewrite <- !app_assoc|]. split; [exact H|].
      now rewrite <- !app_assoc.
  - apply andb_true_iff in Hs as [S1 S2].
    apply orelse_Some in H as [H|[_ H]]; eauto.
Qed.

Lemma search_inv p s m :
  search p s = Some m -> exists a s0, s = a ++ s0 /\ match_at p s0 = Some m.
Proof.
  induction s as [|c s IH]; cbn [search]; intros H.
  - destruct (match_at p []) eqn:E; [|discriminate].
    injection H as ->. now exists [], [].
  - destruct (match_at p (c :: s)) eqn:E.
    + injection H as ->. now exists [], (c :: s).
    + destruct (IH H) as (a & s0 & -> & Hm). now exists (c :: a), s0.
Qed.

Lemma search_app p a s m :
  match_at p s = Some m -> exists m', search p (a ++ s) = Some m'.
Proof.
  intros H. induction a as [|c a (m' & IH)]; cbn [app search].
  - destruct s; cbn [search]; rewrite H; eauto.
  - destruct (match_at p (c :: a ++ s)); eauto.
Qed.

(** The group of a match is a piece of the subject. *)
Lemma search_group_infix p s m t :
  search p s = Some m -> group1 m = Some t ->
  exists a b, s = a ++ t ++ b.
Proof.
  intros H G. apply search_inv in H as (a0 & s0 & -> & H).
  unfold match_at in H.
  apply run_calls in H as (pre & s' & g' & -> & H & Hg).
  injection H as <-. simpl in G. subst g'.
  destruct Hg as [Hg|(a & t' & b & Hg & ->)]; [discriminate|].
  injection Hg as <-.
  exists (a0 ++ a), (b ++ s'). now rewrite <- !app_assoc.
Qed.

Lemma search_sets_group p s m :
  sets_group p = true -> search p s = Some m ->
  exists t, group1 m = Some t.
Proof.
  intros Hs H. apply search_inv in H as (a0 & s0 & -> & H).
  unfold match_at in H.
  apply (run_sets_group _ Hs) in H as (pre & s' & t & a & b & -> & H & _).
  injection H as <-. now exists t.
Qed.

Lemma visible_atom_any a c :
  visible_atom a = true -> accepts a c = true -> accepts Any c = true.
Proof.
  destruct a; try discriminate; intros _; simpl;
    destruct c as [[] [] [] [] [] [] [] []]; vm_compute; congruence.
Qed.

(** [.*(a+)] at the end of a pattern: [.*] is greedy, so it leaves the
    group one character, the last one it could take. *)
Lemma greedy_group_one a s g m :
  visible_atom a = true ->
  run (Then (Many Any) (Grp (More a))) s g
      (fun _ g' => Some (mkMatch g')) = Some m ->
  exists c, group1 m = Some [c] /\ accepts a c = true.
Proof.
  intros Hv. simpl.
  set (K := fun s' : pystr =>
              match s' with
              | [] => None
              | c :: s'0 =>
                  if accepts a c
                  then many a s'0
                         (fun s'' => Some (mkMatch (Some (consumed s' s''))))
                  else None
              end).
  change (many Any s K = Some m -> exists c, group1 m = Some [c] /\ accepts a c = true).
  assert (HK : forall d t, accepts a d = true -> K (d :: t) <> None).
  { intros d t Hd. unfold K. rewrite Hd.
    apply many_never_fails. discriminate. }
  induction s as [|c s IH]; cbn [many]; [discriminate|].
  assert (Hhere : K (c :: s) = Some m ->
                  many Any s K = None ->
                  exists c0, group1 m = Some [c0] /\ accepts a c0 = true).
  { intros H Hnone. unfold K in H.
    destruct (accepts a c) eqn:Hc; [|discriminate].
    destruct s as [|d t].
    - cbn [many] in H. injection H as <-. exists c. split; [|exact Hc].
      cbn [group1]. apply f_equal. exact (consumed_app [c] []).
    - destruct (accepts a d) eqn:Hd.
      + exfalso. cbn [many] in Hnone.
        rewrite (visible_atom_any _ _ Hv Hd) in Hnone.
        destruct (many Any t K); [discriminate|].
        cbn [orelse] in Hnone. now apply (HK d t Hd).
      + cbn [many] in H. rewrite Hd in H. injection H as <-.
        exists c. split; [|exact Hc].
        cbn [group1]. apply f_equal. exact (consumed_app [c] (d :: t)). }
  destruct (accepts Any c) eqn:Hany.
  - intros H. apply orelse_Some in H as [H|[Hnone H]]; auto.
  - intros H. exfalso. unfold K in H.
    destruct (accepts a c) eqn:Hc; [|discriminate].
    rewrite (visible_atom_any _ _ Hv Hc) in Hany. discriminate.
Qed.

Lemma greedy_tail_one p :
  greedy_tail p = true ->
  forall s g m,
    run p s g (fun _ g' => Some (mkMatch g')) = Some m ->
    exists c, group1 m = Some [c].
Proof.
  induction p; simpl; try discriminate.
  intros Ht s g m H.
  assert (Hrec : greedy_tail p2 = true -> exists c, group1 m = Some [c]).
  { intros Ht2. simpl in H.
    apply run_calls in H as (pre & s' & g' & _ & H & _).
    eapply IHp2; eauto. }
  destruct p1; auto.
  destruct a; auto.
  destruct p2; auto.
  destruct p2; auto.
  destruct (greedy_group_one _ _ _ _ Ht H) as (c & Hc & _). now exists c.
Qed.

Lemma search_greedy_tail p s m :
  greedy_tail p = true -> search p s = Some m ->
  exists c, group1 m = Some [c].
Proof.
  intros Ht H. apply search_inv in H as (a & s0 & _ & H).
  eapply greedy_tail_one; eauto.
Qed.

End RxFacts.

(** ** The pattern strings as they are read

    Every pattern of the two parsers, once read into a tree, prints
    back to the string it was read from. *)

Section PatternsRead.

Lemma ainux_patterns_src :
  forallb (fun cp => forallb (fun p => str_eqb (Rx.src (Rx.compile p)) p)
                             (snd cp))
          AiNuxShell.patterns = true.
Proof. vm_compute. reflexivity. Qed.

Lemma llm_patterns_src :
  forallb (fun cp => forallb (fun p => str_eqb (Rx.src (Rx.compile p)) p)
                             (snd cp))
          LLM.patterns = true.
Proof. vm_compute. reflexivity. Qed.

Lemma advanced_patterns_src platform :
  forallb (fun pf => str_eqb (Rx.src (Rx.compile (fst pf))) (fst pf))
          (LLM.advanced_patterns platform) = true.
Proof. vm_compute. reflexivity. Qed.

End PatternsRead.

(** ** [AiNux.parse_natural_language] *)

Section AiNuxParser.

Import Rx AiNuxShell.

Lemma try_patterns_unfold platform ct pattern rest s :
  try_patterns platform ct (pattern :: rest) s =
  match search (compile pattern) s with
  | Some m =>
      match get (ainux_commands platform) ct with
      | Some base =>
          if truthy base then
            if in_list ct specials && has_group (compile pattern)
            then Some (base ++ str " " ++ shown (group1 m))
            else Some base
          else try_patterns platform ct rest s
      | None => try_patterns platform ct rest s
      end
  | None => try_patterns platform ct rest s
  end.
Proof. reflexivity. Qed.

(** Where an answer of the two loops comes from. *)
Lemma try_patterns_inv platform ct pl s c :
  try_patterns platform ct pl s = Some c ->
  exists pattern m base,
    In pattern pl /\ search (compile pattern) s = Some m /\
    get (ainux_commands platform) ct = Some base /\ truthy base = true /\
    c = if in_list ct specials && has_group (compile pattern)
        then base ++ str " " ++ shown (group1 m) else base.
Proof.
  induction pl as [|pattern pl IH]; [discriminate|].
  rewrite try_patterns_unfold.
  assert (Hrec : try_patterns platform ct pl s = Some c ->
                 exists pattern0 m base,
                   In pattern0 (pattern :: pl) /\
                   search (compile pattern0) s = Some m /\
                   get (ainux_commands platform) ct = Some base /\
                   truthy base = true /\
                   c = if in_list ct specials && has_group (compile pattern0)
                       then base ++ str " " ++ shown (group1 m) else base).
  { intros H. destruct (IH H) as (p0 & m & base & Hin & Hrest).
    exists p0, m, base. split; [now right|exact Hrest]. }
  destruct (search (compile pattern) s) as [m|] eqn:Hs; [|exact Hrec].
  destruct (get (ainux_commands platform) ct) as [base|] eqn:Hb;
    [|exact Hrec].
  destruct (truthy base) eqn:Ht; [|exact Hrec].
  intros H. exists pattern, m, base.
  split; [now left|]. repeat (split; [assumption|]).
  destruct (in_list ct specials && has_group (compile pattern));
    now injection H as <-.
Qed.

Lemma try_types_inv platform items s c :
  try_types platform items s = Some c ->
  exists ct pl pattern m base,
    In (ct, pl) items /\ In pattern pl /\
    search (compile pattern) s = Some m /\
    get (ainux_commands platform) ct = Some base /\ truthy base = true /\
    c = if in_list ct specials && has_group (compile pattern)
        then base ++ str " " ++ shown (group1 m) else base.
Proof.
  induction items as [|[ct pl] items IH]; simpl; [discriminate|].
  destruct (try_patterns platform ct pl s) as [c0|] eqn:E.
  - intros H. injection H as ->.
    apply try_patterns_inv in E as (pattern & m & base & Hin & Hrest).
    exists ct, pl, pattern, m, base. split; [now left|]. now split.
  - intros H.
    destruct (IH H) as (ct0 & pl0 & pattern & m & base & Hin & Hrest).
    exists ct0, pl0, pattern, m, base. split; [now right|exact Hrest].
Qed.

(** A command type that takes no argument answers with its base command
    as soon as one of its patterns is found. *)
Lemma try_patterns_hit platform ct pl s base :
  get (ainux_commands platform) ct = Some base ->
  truthy base = true -> in_list ct specials = false ->
  (exists pattern m, In pattern pl /\ search (compile pattern) s = Some m) ->
  try_patterns platform ct pl s = Some base.
Proof.
  intros Hb Ht Hsp (pattern & m & Hin & Hs).
  induction pl as [|p pl IH]; [destruct Hin|].
  rewrite try_patterns_unfold, Hb, Ht, Hsp. simpl.
  destruct (search (compile p) s) eqn:E; [reflexivity|].
  destruct Hin as [->|Hin]; [congruence|auto].
Qed.

Lemma known_platform platform :
  ainux_commands platform <> [] -> In platform known_platforms.
Proof.
  unfold ainux_commands, command_mappings. cbn [get].
  destruct (str_eqb (str "windows") platform) eqn:E1;
    [apply str_eqb_eq in E1; subst platform; intros _;
     vm_compute; intuition reflexivity|].
  destruct (str_eqb (str "linux") platform) eqn:E2;
    [apply str_eqb_eq in E2; subst platform; intros _;
     vm_compute; intuition reflexivity|].
  destruct (str_eqb (str "darwin") platform) eqn:E3;
    [apply str_eqb_eq in E3; subst platform; intros _;
     vm_compute; intuition reflexivity|].
  intros H. exfalso. apply H. reflexivity.
Qed.

Lemma unknown_platform platform :
  ~ In platform known_platforms -> ainux_commands platform = [].
Proof.
  intros H. destruct (ainux_commands platform) eqn:E; [reflexivity|].
  exfalso. apply H. apply known_platform. rewrite E. discriminate.
Qed.

(** X3: On a platform that is not in the table the parser of [ainux.py]
    understands nothing: it returns [None] on every input. *)
Theorem ainux_parse_unknown_platform platform user_input :
  ~ In platform known_platforms ->
  parse_natural_language platform user_input = None.
Proof.
  intros H. unfold parse_natural_language.
  destruct (try_types platform patterns (strip (lower user_input)))
    as [c|] eqn:E; [|reflexivity].
  apply try_types_inv in E as (ct & pl & p & m & base & _ & _ & _ & Hd & _).
  rewrite (unknown_platform _ H) in Hd. discriminate.
Qed.

Lemma ainux_parse_unknown_platform_witness :
  ~ In (str "freebsd") known_platforms /\
  parse_natural_language (str "freebsd") (str "list files here") = None.
Proof.
  assert (H : ~ In (str "freebsd") known_platforms).
  { vm_compute. intros [H|[H|[H|[]]]]; discriminate. }
  split; [exact H|].
  exact (ainux_parse_unknown_platform (str "freebsd") (str "list files here") H).
Defined.

Lemma literal_found w a b :
  (exists m, match_at (compile w) (w ++ b) = Some m) ->
  exists m, search (compile w) (a ++ w ++ b) = Some m.
Proof. intros (m & H). eapply search_app; eauto. Qed.

Lemma dir_found a b :
  exists m, search (compile (str "dir")) (a ++ str "dir" ++ b) = Some m.
Proof.
  apply literal_found. eexists. vm_compute compile. cbn. reflexivity.
Qed.

Lemma ls_found a b :
  exists m, search (compile (str "ls")) (a ++ str "ls" ++ b) = Some m.
Proof.
  apply literal_found. eexists. vm_compute compile. cbn. reflexivity.
Qed.

(** The text [dir] or [ls] anywhere in the normalised input is taken by
    the first command type. *)
Lemma list_files_first platform s base :
  get (ainux_commands platform) (str "list_files") = Some base ->
  truthy base = true ->
  (exists a w b, In w [str "dir"; str "ls"] /\ s = a ++ w ++ b) ->
  try_types platform patterns s = Some base.
Proof.
  intros Hb Ht (a & w & b & Hw & ->).
  unfold patterns. cbn [try_types].
  rewrite (try_patterns_hit platform _ _ _ base Hb Ht);
    [reflexivity|reflexivity|].
  destruct Hw as [<-|[<-|[]]].
  - destruct (dir_found a b) as (m & Hm).
    exists (str "dir"), m. split; [|exact Hm]. simpl. intuition reflexivity.
  - destruct (ls_found a b) as (m & Hm).
    exists (str "ls"), m. split; [|exact Hm]. simpl. intuition reflexivity.
Qed.

Lemma normalized_keeps user_input a w b :
  visible_ends w = true -> lower user_input = a ++ w ++ b ->
  exists a' b', strip (lower user_input) = a' ++ w ++ b'.
Proof.
  intros Hv E. rewrite E. now apply strip_keeps_word.
Qed.

(** X4: Whenever the input, in lower case, holds the letters [dir] or [ls]
    anywhere, the parser of [ainux.py] answers with the command that
    lists the files ([dir] on Windows, [ls -la] on Linux and macOS),
    whatever else the input says: the first command type has the bare
    patterns [dir] and [ls]. *)
Theorem ainux_parse_dir_or_ls platform user_input a w b :
  In platform known_platforms ->
  In w [str "dir"; str "ls"] ->
  lower user_input = a ++ w ++ b ->
  parse_natural_language platform user_input =
  Some (if str_eqb platform (str "windows") then str "dir"
        else str "ls -la").
Proof.
  intros Hp Hw E. unfold parse_natural_language.
  assert (Hv : visible_ends w = true)
    by (destruct Hw as [<-|[<-|[]]]; reflexivity).
  destruct (normalized_keeps _ _ _ _ Hv E) as (a' & b' & ->).
  assert (Hex : exists a0 w0 b0,
             In w0 [str "dir"; str "ls"] /\ a' ++ w ++ b' = a0 ++ w0 ++ b0)
    by (now exists a', w, b').
  vm_compute in Hp.
  destruct Hp as [<-|[<-|[<-|[]]]];
    eapply list_files_first; eauto; reflexivity.
Qed.

Lemma ainux_parse_dir_or_ls_witness :
  parse_natural_language (str "linux") (str "Create directory myproject")
  = Some (str "ls -la").
Proof.
  apply (ainux_parse_dir_or_ls (str "linux")
           (str "Create directory myproject")
           (str "create ") (str "dir") (str "ectory myproject")).
  - vm_compute. intuition reflexivity.
  - simpl. intuition reflexivity.
  - vm_compute. reflexivity.
Defined.

(** Checks over the two tables, made once by computation. *)
Lemma table_forall (P : pystr -> pystr -> bool) :
  forallb (fun pd => forallb (fun cb => P (fst cb) (snd cb)) (snd pd))
          command_mappings = true ->
  forall platform ct base,
    get (ainux_commands platform) ct = Some base -> P ct base = true.
Proof.
  intros Hall platform ct base Hb.
  unfold ainux_commands in Hb.
  destruct (get command_mappings platform) as [d|] eqn:Hd; [|discriminate].
  apply get_Some_In in Hd. apply get_Some_In in Hb.
  rewrite forallb_forall in Hall. specialize (Hall _ Hd).
  simpl in Hall. rewrite forallb_forall in Hall.
  exact (Hall _ Hb).
Qed.

Lemma patterns_forall (Q : pystr -> pystr -> bool) :
  forallb (fun cp => forallb (Q (fst cp)) (snd cp)) patterns = true ->
  forall ct pl pattern,
    In (ct, pl) patterns -> In pattern pl -> Q ct pattern = true.
Proof.
  intros Hall ct pl pattern Hin Hp.
  rewrite forallb_forall in Hall. specialize (Hall _ Hin).
  simpl in Hall. rewrite forallb_forall in Hall. auto.
Qed.

Lemma run_lit_head {A : Type} c p s g
      (k : pystr -> option pystr -> option A) r :
  run (Then (One (Chr c)) p) s g k = Some r ->
  exists s', s = c :: s' /\ run p s' g k = Some r.
Proof.
  simpl. destruct s as [|x s]; [discriminate|].
  destruct (Ascii.eqb c x) eqn:E; [|discriminate].
  apply Ascii.eqb_eq in E. subst x. intros H. now exists s.
Qed.

Lemma mkdir_pattern_needs_dir s m :
  search (compile (str "mkdir\s+(\S+)")) s = Some m ->
  exists a b, s = a ++ str "dir" ++ b.
Proof.
  intros H. apply search_inv in H as (a & s0 & -> & H).
  unfold match_at in H. vm_compute compile in H.
  apply run_lit_head in H as (s1 & -> & H).
  apply run_lit_head in H as (s2 & -> & H).
  apply run_lit_head in H as (s3 & -> & H).
  apply run_lit_head in H as (s4 & -> & H).
  apply run_lit_head in H as (s5 & -> & H).
  exists (a ++ str "mk"), s5. now rewrite <- app_assoc.
Qed.

(** X5: The parser of [ainux.py] never asks for a directory with a name of
    more than one character: whenever it answers [mkdir] with an
    argument, the argument is a single character.  The patterns that
    reach it end in [.*(\S+)], where the greedy [.*] leaves the group
    only the last character, and an input matched by [mkdir\s+(\S+)]
    holds [dir] and is taken for a file listing first. *)
Theorem ainux_parse_mkdir_one_char platform user_input arg :
  parse_natural_language platform user_input = Some (str "mkdir " ++ arg) ->
  List.length arg = 1.
Proof.
  unfold parse_natural_language. intros H.
  pose proof H as Hinv.
  apply try_types_inv in Hinv
    as (ct & pl & pattern & m & base & Hin & Hp & Hs & Hb & _ & Hc).
  assert (Hbase := table_forall
            (fun ct b =>
               negb (startswith b (str "mkdir "))
               && implb (str_eqb ct (str "change_directory"))
                        (str_eqb b (str "cd"))
               && implb (str_eqb ct (str "create_directory"))
                        (str_eqb b (str "mkdir")))
            eq_refl _ _ _ Hb).
  cbn beta in Hbase.
  apply andb_true_iff in Hbase as [Hbase Hmk].
  apply andb_true_iff in Hbase as [Hno Hcd].
  assert (Hpat := patterns_forall
            (fun ct p =>
               implb (str_eqb ct (str "create_directory")
                      && has_group (compile p))
                     (greedy_tail (compile p)
                      || str_eqb p (str "mkdir\s+(\S+)")))
            eq_refl _ _ _ Hin Hp).
  cbn beta in Hpat.
  destruct (in_list ct specials && has_group (compile pattern)) eqn:Hsp.
  - apply andb_true_iff in Hsp as [Hsp Hg].
    apply in_list_In in Hsp. vm_compute in Hsp.
    destruct Hsp as [<-|[<-|[]]].
    + rewrite str_eqb_refl in Hcd. cbn [implb] in Hcd.
      apply str_eqb_eq in Hcd. subst base. discriminate Hc.
    + rewrite str_eqb_refl in Hmk. cbn [implb] in Hmk.
      apply str_eqb_eq in Hmk. subst base.
      simpl in Hc. injection Hc as ->.
      rewrite Hg, str_eqb_refl in Hpat. cbn [andb implb] in Hpat.
      apply orb_true_iff in Hpat as [Ht|He].
      * destruct (search_greedy_tail _ _ _ Ht Hs) as (c0 & ->).
        reflexivity.
      * exfalso. apply str_eqb_eq in He. subst pattern.
        apply mkdir_pattern_needs_dir in Hs as (a & b & E).
        destruct (get (ainux_commands platform) (str "list_files"))
          as [lf|] eqn:Hlf.
        -- assert (Hl := table_forall
                     (fun ct b =>
                        truthy b
                        && implb (str_eqb ct (str "list_files"))
                                 (negb (startswith b (str "mkdir "))))
                     eq_refl _ _ _ Hlf).
           cbn beta in Hl. apply andb_true_iff in Hl as [Ht Hn].
           rewrite str_eqb_refl in Hn. cbn [implb] in Hn.
           rewrite (list_files_first platform _ lf Hlf Ht) in H.
           ++ injection H as ->. unfold startswith in Hn.
              simpl in Hn. discriminate Hn.
           ++ exists a, (str "dir"), b. split; [|exact E].
              simpl. intuition reflexivity.
        -- assert (Hk : ainux_commands platform <> [])
             by (intros E0; rewrite E0 in Hb; discriminate).
           apply known_platform in Hk. vm_compute in Hk.
           destruct Hk as [<-|[<-|[<-|[]]]]; discriminate Hlf.
  - subst base. unfold startswith in Hno.
    rewrite starts_with_app in Hno. discriminate.
Qed.

Lemma ainux_parse_mkdir_one_char_witness :
  parse_natural_language (str "linux") (str "New folder reports")
  = Some (str "mkdir " ++ str "s") /\
  List.length (str "s") = 1.
Proof.
  assert (H : parse_natural_language (str "linux") (str "New folder reports")
              = Some (str "mkdir " ++ str "s"))
    by (vm_compute; reflexivity).
  split; [exact H|].
  exact (ainux_parse_mkdir_one_char _ _ _ H).
Defined.

(** X6: The parser of [ainux.py] works on the lower-cased input and its
    tables are in lower case, so the command it returns holds no
    capital letter: a directory named with capitals comes out in lower
    case. *)
Theorem ainux_parse_lower_case platform user_input c :
  parse_natural_language platform user_input = Some c -> lower c = c.
Proof.
  unfold parse_natural_language. intros H.
  apply try_types_inv in H
    as (ct & pl & pattern & m & base & Hin & Hp & Hs & Hb & _ & ->).
  assert (Hlow := table_forall (fun _ b => str_eqb (lower b) b)
                               eq_refl _ _ _ Hb).
  apply str_eqb_eq in Hlow.
  assert (Hpat := patterns_forall
            (fun _ p => implb (has_group (compile p))
                              (sets_group (compile p)))
            eq_refl _ _ _ Hin Hp).
  simpl in Hpat.
  destruct (in_list ct specials && has_group (compile pattern)) eqn:Hsp;
    [|exact Hlow].
  apply andb_true_iff in Hsp as [_ Hg]. rewrite Hg in Hpat. simpl in Hpat.
  destruct (search_sets_group _ _ _ Hpat Hs) as (t & Ht).
  rewrite Ht. simpl shown.
  destruct (search_group_infix _ _ _ _ Hs Ht) as (a & b & E).
  destruct (strip_infix (lower user_input)) as (p & q & Hpq).
  assert (Hl : lower t = t).
  { apply (lower_infix user_input). exists (p ++ a), (b ++ q).
    rewrite Hpq at 1. rewrite E. now rewrite <- !app_assoc. }
  unfold lower in *. rewrite !map_app. now rewrite Hlow, Hl.
Qed.

Lemma ainux_parse_lower_case_witness :
  parse_natural_language (str "linux") (str "cd Projects")
  = Some (str "cd projects") /\
  lower (str "cd projects") = str "cd projects".
Proof.
  assert (H : parse_natural_language (str "linux") (str "cd Projects")
              = Some (str "cd projects"))
    by (vm_compute; reflexivity).
  split; [exact H|].
  exact (ainux_parse_lower_case _ _ _ H).
Defined.

Lemma search_nil_None p :
  match_at p [] = None -> search p [] = None.
Proof. intros H. cbn [search]. now rewrite H. Qed.

(** X7: An input of blanks only, the empty input included, is not
    understood by the parser of [ainux.py] on any platform. *)
Theorem ainux_parse_blank platform user_input :
  forallb isspace user_input = true ->
  parse_natural_language platform user_input = None.
Proof.
  intros H. unfold parse_natural_language.
  rewrite strip_blank by (now rewrite forallb_lower_isspace).
  destruct (try_types platform patterns []) as [c|] eqn:E; [|reflexivity].
  apply try_types_inv in E as (ct & pl & p & m & base & Hin & Hp & Hs & _).
  assert (Hn := patterns_forall
            (fun _ p => match search (compile p) [] with
                        | None => true
                        | Some _ => false
                        end)
            eq_refl _ _ _ Hin Hp).
  cbn beta in Hn. rewrite Hs in Hn. discriminate.
Qed.

Lemma ainux_parse_blank_witness :
  forallb isspace (str "   ") = true /\
  parse_natural_language (str "linux") (str "   ") = None.
Proof.
  assert (H : forallb isspace (str "   ") = true) by reflexivity.
  split; [exact H|].
  exact (ainux_parse_blank (str "linux") (str "   ") H).
Defined.

End AiNuxParser.

(** ** [AiNux.is_command_safe] and [AiNux.execute_command] *)

Section AiNuxGate.

Lemma contains_after_strip d a b :
  visible_ends d = true ->
  AiNux.contains d (strip (a ++ d ++ b)) = true.
Proof.
  intros Hv. destruct (strip_keeps_word a d b Hv) as (a' & b' & ->).
  apply contains_iff. now exists a', b'.
Qed.

(** X1: The classifier of [ainux.py] refuses every command that holds one
    of its dangerous strings anywhere, in any letter case: between
    other words, inside a longer word, before or after a pipe. *)
Theorem ainux_refuses_substring command d a b :
  In d (AiNux.dangerous_commands ++ AiNux.dangerous_keywords) ->
  lower command = a ++ d ++ b ->
  AiNux.is_command_safe command = false.
Proof.
  intros Hin E. unfold AiNux.is_command_safe. rewrite E.
  assert (Hall : forallb (fun d => visible_ends d && str_eqb (lower d) d)
                         (AiNux.dangerous_commands ++ AiNux.dangerous_keywords)
                 = true) by reflexivity.
  rewrite forallb_forall in Hall. specialize (Hall _ Hin).
  apply andb_true_iff in Hall as [Hv Hl]. apply str_eqb_eq in Hl.
  assert (Hc : AiNux.contains (lower d) (strip (a ++ d ++ b)) = true)
    by (rewrite Hl; now apply contains_after_strip).
  apply in_app_or in Hin as [Hin|Hin].
  - replace (existsb _ AiNux.dangerous_commands) with true; [reflexivity|].
    symmetry. apply existsb_exists. now exists d.
  - destruct (existsb _ AiNux.dangerous_commands); [reflexivity|].
    replace (existsb _ AiNux.dangerous_keywords) with true; [reflexivity|].
    symmetry. apply existsb_exists. now exists d.
Qed.

Lemma ainux_refuses_substring_witness :
  In (str "dd") (AiNux.dangerous_commands ++ AiNux.dangerous_keywords) /\
  lower (str "git ADD notes.txt") = str "git a" ++ str "dd" ++ str " notes.txt"
  /\ AiNux.is_command_safe (str "git ADD notes.txt") = false.
Proof.
  assert (Hin : In (str "dd")
                   (AiNux.dangerous_commands ++ AiNux.dangerous_keywords))
    by (vm_compute; intuition reflexivity).
  assert (E : lower (str "git ADD notes.txt")
              = str "git a" ++ str "dd" ++ str " notes.txt")
    by (vm_compute; reflexivity).
  split; [exact Hin|]. split; [exact E|].
  exact (ainux_refuses_substring _ _ _ _ Hin E).
Defined.



End AiNuxGate.

(** ** [GeminiLLM._extract_command] *)

Section Extract.

Import Gemini.

Lemma fold_prefixes_nil :
  fold_left remove_prefix prefixes_to_remove [] = [].
Proof. reflexivity. Qed.

(** X9: A response of blanks only, the empty response included, gives no
    command. *)
Theorem extract_blank_is_none llm_response :
  forallb isspace llm_response = true ->
  _extract_command llm_response = None.
Proof.
  intros H. unfold _extract_command.
  destruct (truthy llm_response); [|reflexivity].
  cbn [negb]. cbv zeta.
  rewrite (strip_blank _ H), fold_prefixes_nil. reflexivity.
Qed.

Lemma extract_blank_is_none_witness :
  forallb isspace (str "  ") = true /\ _extract_command (str "  ") = None.
Proof.
  assert (H : forallb isspace (str "  ") = true) by reflexivity.
  split; [exact H|]. exact (extract_blank_is_none _ H).
Defined.

Lemma length_removelast {A : Type} (l : list A) :
  List.length (removelast l) <= List.length l.
Proof.
  induction l as [|x l IH]; simpl; [lia|].
  destruct l; simpl in *; lia.
Qed.

Lemma length_inner s : List.length (inner s) <= List.length s.
Proof.
  unfold inner. pose proof (length_removelast (tl s)).
  destruct s; simpl in *; lia.
Qed.

Lemma length_unquote q s : List.length (unquote q s) <= List.length s.
Proof.
  unfold unquote. destruct (startswith s [q] && endswith s [q]); [|lia].
  apply length_inner.
Qed.

Lemma extract_length llm_response c :
  _extract_command llm_response = Some c -> List.length c <= 200.
Proof.
  unfold _extract_command.
  destruct (negb (truthy llm_response)); [discriminate|].
  set (command := fold_left remove_prefix prefixes_to_remove
                            (strip llm_response)).
  destruct (in_list (lower command) invalid_responses); [discriminate|].
  destruct (negb (truthy command)); [discriminate|]. simpl.
  destruct (Nat.ltb 200 (List.length command)) eqn:L; [discriminate|].
  apply Nat.ltb_ge in L. intros H. injection H as <-.
  pose proof (length_unquote "'" (unquote dq command)).
  pose proof (length_unquote dq command). lia.
Qed.

(** X10: A command that comes out of the extraction has at most 200
    characters. *)
Theorem extract_at_most_200 llm_response c :
  _extract_command llm_response = Some c -> List.length c <= 200.
Proof. apply extract_length. Qed.

Lemma extract_at_most_200_witness :
  _extract_command (str "Command: ls -la") = Some (str "ls -la") /\
  List.length (str "ls -la") <= 200.
Proof.
  assert (H : _extract_command (str "Command: ls -la") = Some (str "ls -la"))
    by (vm_compute; reflexivity).
  split; [exact H|]. exact (extract_at_most_200 _ _ H).
Defined.

Lemma plain_fold c :
  forallb (fun prefix => negb (startswith (lower c) prefix))
          prefixes_to_remove = true ->
  fold_left remove_prefix prefixes_to_remove c = c.
Proof.
  unfold prefixes_to_remove. cbn [map forallb fold_left].
  unfold remove_prefix. intros H.
  repeat (apply andb_true_iff in H as [?H H]).
  repeat match goal with
         | Hx : negb _ = true |- _ => apply negb_true_iff in Hx; rewrite Hx
         end.
  reflexivity.
Qed.

(** X11: A response that is one of the refusal words ([invalid_request],
    [invalid request], [error], [unknown]), in any letter case and with
    any blanks around it, gives no command. *)
Theorem extract_refusal_is_none llm_response :
  In (lower (strip llm_response)) invalid_responses ->
  _extract_command llm_response = None.
Proof.
  intros Hin. unfold _extract_command.
  destruct (negb (truthy llm_response)); [reflexivity|].
  assert (Hfold : fold_left remove_prefix prefixes_to_remove
                            (strip llm_response) = strip llm_response).
  { apply plain_fold. simpl in Hin.
    destruct Hin as [E|[E|[E|[E|[]]]]]; rewrite <- E; reflexivity. }
  rewrite Hfold.
  replace (in_list (lower (strip llm_response)) invalid_responses) with true;
    [reflexivity|].
  symmetry. now apply in_list_In.
Qed.

Lemma extract_refusal_is_none_witness :
  In (lower (strip (str " Invalid_Request "))) invalid_responses /\
  _extract_command (str " Invalid_Request ") = None.
Proof.
  assert (H : In (lower (strip (str " Invalid_Request "))) invalid_responses)
    by (vm_compute; intuition reflexivity).
  split; [exact H|]. exact (extract_refusal_is_none _ H).
Defined.

Lemma plain_strip a c b :
  visible_ends c = true ->
  forallb isspace a = true -> forallb isspace b = true ->
  strip (a ++ c ++ b) = c.
Proof.
  intros Hv Ha Hb.
  destruct c as [|c1 c]; [discriminate|].
  unfold visible_ends in Hv. apply andb_true_iff in Hv as [H1 H2].
  apply negb_true_iff in H1, H2.
  assert (Hr : rstrip b = []).
  { clear - Hb. induction b as [|x b IH]; simpl; [reflexivity|].
    simpl in Hb. apply andb_true_iff in Hb as [Hx Hb].
    now rewrite (IH Hb), Hx. }
  destruct (exists_last (l := c1 :: c)) as (u & c2 & E); [discriminate|].
  rewrite E in H2 |- *. rewrite last_last in H2.
  destruct u as [|x u]; simpl in E.
  - injection E as -> ->.
    transitivity (lstrip a ++ [c2] ++ rstrip b);
      [exact (strip_keeps_one a c2 b H2)|].
    now rewrite (lstrip_blank _ Ha), Hr.
  - injection E as <- ->.
    transitivity (lstrip a ++ (c1 :: u ++ [c2]) ++ rstrip b);
      [exact (strip_keeps a c1 u c2 b H1 H2)|].
    rewrite (lstrip_blank _ Ha), Hr. simpl. now rewrite app_nil_r.
Qed.

(** X12: A plain command (visible at both ends, at most 200 characters, not
    a refusal word, without one of the prefixes and without quotes
    around it) comes out of the extraction as it is, whatever blanks
    the response has around it. *)
Theorem extract_plain_command a c b :
  plain_command c = true ->
  forallb isspace a = true -> forallb isspace b = true ->
  _extract_command (a ++ c ++ b) = Some c.
Proof.
  unfold plain_command. intros H Ha Hb.
  repeat (apply andb_true_iff in H as [H ?Hx]).
  rename H into Hv. apply negb_true_iff in Hx, Hx0, Hx2.
  apply Nat.leb_le in Hx3.
  unfold _extract_command.
  assert (Ht : truthy (a ++ c ++ b) = true).
  { destruct c; [discriminate|]. now destruct a. }
  rewrite Ht. cbn [negb]. cbv zeta.
  rewrite (plain_strip a c b Hv Ha Hb), (plain_fold c Hx1), Hx2.
  assert (Htc : truthy c = true) by (destruct c; [discriminate|reflexivity]).
  rewrite Htc. cbn [negb orb].
  replace (Nat.ltb 200 (List.length c)) with false
    by (symmetry; apply Nat.ltb_ge; exact Hx3).
  unfold unquote. rewrite Hx0, Hx. reflexivity.
Qed.

Lemma extract_plain_command_witness :
  plain_command (str "ls -la") = true /\
  _extract_command (str "  " ++ str "ls -la" ++ [nl]) = Some (str "ls -la").
Proof.
  assert (H : plain_command (str "ls -la") = true) by reflexivity.
  split; [exact H|].
  apply (extract_plain_command (str "  ") (str "ls -la") [nl] H);
    reflexivity.
Defined.

Lemma removelast_snoc {A : Type} (l : list A) (x : A) :
  removelast (l ++ [x]) = l.
Proof. apply removelast_last. Qed.

(** X13: Whatever stands between two double quotes comes out of the
    extraction as it is, if it has at most 198 characters and is not
    itself in single quotes: the checks are made before the quotes are
    removed, so that even a refusal word or the empty command gets
    through this way. *)
Theorem extract_double_quoted c :
  List.length c <= 198 ->
  startswith c ["'"] && endswith c ["'"] = false ->
  _extract_command (dq :: c ++ [dq]) = Some c.
Proof.
  intros Hlen Hq. unfold _extract_command. cbn [truthy negb]. cbv zeta.
  assert (Hs : strip (dq :: c ++ [dq]) = dq :: c ++ [dq]).
  { transitivity (lstrip [] ++ (dq :: c ++ [dq]) ++ rstrip []);
      [|simpl; now rewrite app_nil_r].
    rewrite <- (strip_keeps [] dq c dq []) by reflexivity.
    simpl. now rewrite app_nil_r. }
  rewrite Hs.
  assert (Hf : fold_left remove_prefix prefixes_to_remove (dq :: c ++ [dq])
               = dq :: c ++ [dq]) by (apply plain_fold; reflexivity).
  rewrite Hf.
  replace (in_list (lower (dq :: c ++ [dq])) invalid_responses) with false
    by reflexivity.
  cbn [truthy negb orb].
  replace (Nat.ltb 200 (List.length (dq :: c ++ [dq]))) with false.
  2:{ symmetry. apply Nat.ltb_ge. simpl. rewrite List.length_app. simpl. lia. }
  assert (Hu : unquote dq (dq :: c ++ [dq]) = c).
  { unfold unquote, startswith, endswith, inner.
    replace (rev (dq :: c ++ [dq])) with (dq :: rev c ++ [dq])
      by (simpl; now rewrite rev_app_distr).
    simpl. apply removelast_snoc. }
  rewrite Hu. unfold unquote. now rewrite Hq.
Qed.

Lemma extract_double_quoted_witness :
  List.length (str "error") <= 198 /\
  _extract_command (dq :: str "error" ++ [dq]) = Some (str "error") /\
  _extract_command (str "error") = None.
Proof.
  assert (H : List.length (str "error") <= 198) by (simpl; lia).
  split; [exact H|]. split; [|reflexivity].
  exact (extract_double_quoted (str "error") H eq_refl).
Defined.

End Extract.

(** ** [GeminiLLM.generate_command] *)

Section Generate.

Import Gemini.

Lemma first_good_sound api from n c :
  first_good api from n = Some c -> c <> [] /\ List.length c <= 200.
Proof.
  revert from. induction n as [|n IH]; intros from; simpl; [discriminate|].
  destruct (api from) as [text|msg]; [|apply IH].
  destruct (if truthy text then _extract_command text else None)
    as [[|x c0]|] eqn:E; try apply IH.
  intros H. injection H as <-. split; [discriminate|].
  destruct (truthy text); [|discriminate].
  now apply extract_length in E.
Qed.

(** One turn of the loop. *)
Lemma attempts_S self attempt left lw :
  attempts self attempt (S left) lw =
  let lw1 := mkLWorld (world lw) (api lw) (S (requests lw)) (slept lw) in
  match api lw (requests lw) with
  | ApiText text =>
      match (if truthy text then _extract_command text else None) with
      | Some ((_ :: _) as command) => (Some command, lw1)
      | _ => attempts self (S attempt) left lw1
      end
  | ApiError msg =>
      attempts self (S attempt) left
        (mkLWorld
           (snd (print (str "RETRY: LLM request attempt "
                          ++ str_of_nat (attempt + 1)
                          ++ str " failed: " ++ msg) (world lw)))
           (api lw) (S (requests lw))
           (slept lw
            + (if Nat.ltb attempt (max_retries self - 1) then 1 else 0)))
  end.
Proof.
  cbn [attempts]. unfold lbind, generate_content. cbn [api requests].
  destruct (api lw (requests lw)) as [text|msg].
  - destruct (if truthy text then _extract_command text else None)
      as [[|x c0]|]; reflexivity.
  - unfold lprint, sleep, lret. cbn [world api requests slept].
    destruct (Nat.ltb attempt (max_retries self - 1));
      lazy beta iota zeta; cbn [world api requests slept].
    + reflexivity.
    + now rewrite Nat.add_0_r.
Qed.

(** The loop, from any turn on: what it returns, and what it does to
    the world. *)
Lemma attempts_spec self left :
  forall attempt lw,
    fst (attempts self attempt left lw)
    = first_good (api lw) (requests lw) left /\
    api (snd (attempts self attempt left lw)) = api lw /\
    requests (snd (attempts self attempt left lw)) <= requests lw + left /\
    slept (snd (attempts self attempt left lw))
    <= slept lw + (max_retries self - 1 - attempt) /\
    stdin (world (snd (attempts self attempt left lw))) = stdin (world lw) /\
    spawned (world (snd (attempts self attempt left lw)))
    = spawned (world lw).
Proof.
  induction left as [|left IH]; intros attempt lw.
  - simpl. repeat split; try reflexivity; lia.
  - rewrite attempts_S. cbn [first_good]. cbv zeta.
    assert (Hnext : forall lw2,
               api lw2 = api lw -> requests lw2 = S (requests lw) ->
               (slept lw2 = slept lw \/
                slept lw2 = slept lw + 1 /\ attempt < max_retries self - 1) ->
               stdin (world lw2) = stdin (world lw) ->
               spawned (world lw2) = spawned (world lw) ->
               fst (attempts self (S attempt) left lw2)
               = first_good (api lw) (S (requests lw)) left /\
               api (snd (attempts self (S attempt) left lw2)) = api lw /\
               requests (snd (attempts self (S attempt) left lw2))
               <= requests lw + S left /\
               slept (snd (attempts self (S attempt) left lw2))
               <= slept lw + (max_retries self - 1 - attempt) /\
               stdin (world (snd (attempts self (S attempt) left lw2)))
               = stdin (world lw) /\
               spawned (world (snd (attempts self (S attempt) left lw2)))
               = spawned (world lw)).
    { intros lw2 Ha Hr Hs Hi Hp.
      destruct (IH (S attempt) lw2) as (H1 & H2 & H3 & H4 & H5 & H6).
      rewrite Ha, Hr in H1. rewrite H1, H2, H5, H6.
      repeat split; auto; lia. }
    destruct (api lw (requests lw)) as [text|msg].
    + destruct (if truthy text then _extract_command text else None)
        as [[|x c0]|]; try (apply Hnext; simpl; auto; lia).
      simpl. repeat split; try reflexivity; lia.
    + destruct (Nat.ltb attempt (max_retries self - 1)) eqn:L.
      * apply Nat.ltb_lt in L. apply Hnext; simpl; auto.
      * apply Hnext; simpl; auto; try (left; lia).
Qed.

(** X14: What [generate_command] returns is the first command that can be
    extracted, and is not empty, among the responses of the next
    [max_retries] requests; without the service it returns [None] and
    makes no request. *)
Theorem generate_command_result self user_input platform lw :
  fst (generate_command self user_input platform lw)
  = (if available self
     then first_good (api lw) (requests lw) (max_retries self) else None)
  /\ (available self = false ->
      snd (generate_command self user_input platform lw) = lw).
Proof.
  unfold generate_command. destruct (available self); simpl.
  - split; [apply attempts_spec|discriminate].
  - split; reflexivity.
Qed.

(** X15: [generate_command] makes at most [max_retries] requests and sleeps
    at most [max_retries - 1] seconds; it reads nothing from standard
    input and runs no command; a command it returns is not empty and
    has at most 200 characters. *)
Theorem generate_command_bounds self user_input platform lw :
  let out := generate_command self user_input platform lw in
  requests (snd out) <= requests lw + max_retries self /\
  slept (snd out) <= slept lw + (max_retries self - 1) /\
  stdin (world (snd out)) = stdin (world lw) /\
  spawned (world (snd out)) = spawned (world lw) /\
  (forall c, fst out = Some c -> c <> [] /\ List.length c <= 200).
Proof.
  unfold generate_command. destruct (available self); simpl.
  - destruct (attempts_spec self (max_retries self) 0 lw)
      as (H1 & H2 & H3 & H4 & H5 & H6).
    repeat split; try assumption; try lia.
    + intros ->. rewrite H1 in H. now apply first_good_sound in H.
    + rewrite H1 in H. now apply first_good_sound in H.
  - repeat split; try lia; discriminate.
Qed.

Lemma generate_command_result_witness :
  fst (generate_command (mkGemini true 2) (str "list files") (str "linux")
                        flaky_world)
  = Some (str "ls -la") /\
  fst (generate_command (mkGemini false 2) (str "list files") (str "linux")
                        flaky_world)
  = None.
Proof.
  split.
  - rewrite (proj1 (generate_command_result (mkGemini true 2) _ _ _)).
    vm_compute. reflexivity.
  - rewrite (proj1 (generate_command_result (mkGemini false 2) _ _ _)).
    reflexivity.
Defined.

Lemma generate_command_bounds_witness :
  requests (snd (generate_command (mkGemini true 2) (str "list files")
                                  (str "linux") flaky_world)) <= 0 + 2 /\
  slept (snd (generate_command (mkGemini true 2) (str "list files")
                               (str "linux") flaky_world)) <= 0 + (2 - 1).
Proof.
  destruct (generate_command_bounds (mkGemini true 2) (str "list files")
                                    (str "linux") flaky_world)
    as (H1 & H2 & _).
  split; [exact H1|exact H2].
Defined.

End Generate.

(** ** [AiNuxLLM.parse_natural_language] *)

Section LlmParse.

Import Gemini LLM.

Lemma llm_ready_available self g :
  llm_ready self = Some g -> available g = true.
Proof.
  unfold llm_ready. destruct (use_llm self); [|discriminate].
  destruct (llm self) as [g0|]; [|discriminate].
  destruct (available g0) eqn:E; [|discriminate].
  intros H. now injection H as <-.
Qed.

Lemma regex_fallback_spec self user_input lw :
  fst (regex_fallback self user_input lw)
  = _parse_with_regex (platform self) user_input /\
  requests (snd (regex_fallback self user_input lw)) = requests lw /\
  slept (snd (regex_fallback self user_input lw)) = slept lw /\
  api (snd (regex_fallback self user_input lw)) = api lw.
Proof.
  unfold regex_fallback, lbind, lprint, lret.
  destruct (_parse_with_regex (platform self) user_input) as [[|x r]|];
    simpl; auto.
Qed.

(** X16: What [AiNuxLLM.parse_natural_language] returns.  With the service
    ready, it is the first command extracted from the service's
    responses, unless there is none or the classifier forbids it; in
    those cases, and without the service, it is the answer of the
    pattern parser.  A command the classifier only wants confirmed is
    returned like a safe one. *)
Theorem llm_parse_result self user_input lw :
  fst (parse_natural_language self user_input lw) =
  match llm_ready self with
  | Some g =>
      match first_good (api lw) (requests lw) (max_retries g) with
      | Some c =>
          match is_command_safe c with
          | Forbidden => _parse_with_regex (platform self) user_input
          | _ => Some c
          end
      | None => _parse_with_regex (platform self) user_input
      end
  | None => _parse_with_regex (platform self) user_input
  end.
Proof.
  unfold parse_natural_language.
  destruct (llm_ready self) as [g|] eqn:Hg; [|apply regex_fallback_spec].
  apply llm_ready_available in Hg.
  unfold lbind at 1. unfold lprint at 1. cbn [world api requests slept].
  set (lw1 := mkLWorld _ (api lw) (requests lw) (slept lw)).
  unfold lbind at 1. unfold generate_command. rewrite Hg. cbn [negb].
  destruct (attempts_spec g (max_retries g) 0 lw1) as (H1 & _).
  destruct (attempts g 0 (max_retries g) lw1) as [cmd lw2] eqn:E.
  cbn [fst] in H1. subst lw1. cbn [api requests] in H1. rewrite <- H1.
  destruct cmd as [[|x c]|].
  - symmetry in H1. apply first_good_sound in H1 as [H1 _].
    now contradiction H1.
  - destruct (is_command_safe (x :: c)); simpl.
    + reflexivity.
    + reflexivity.
    + unfold lbind, lprint. apply (proj1 (regex_fallback_spec _ _ _)).
  - unfold lbind, lprint. apply (proj1 (regex_fallback_spec _ _ _)).
Qed.

Lemma llm_parse_result_witness :
  fst (parse_natural_language
         (mkAiNuxLLM (str "linux") true (Some (mkGemini true 2)))
         (str "show disk usage") hostile_world)
  = Some (str "df -h").
Proof.
  rewrite llm_parse_result. vm_compute. reflexivity.
Defined.

(** X17: Without a ready service [AiNuxLLM.parse_natural_language] makes no
    request and does not sleep. *)
Theorem llm_parse_offline self user_input lw :
  llm_ready self = None ->
  requests (snd (parse_natural_language self user_input lw)) = requests lw /\
  slept (snd (parse_natural_language self user_input lw)) = slept lw.
Proof.
  intros H. unfold parse_natural_language. rewrite H.
  destruct (regex_fallback_spec self user_input lw) as (_ & H1 & H2 & _).
  now split.
Qed.

Lemma llm_parse_offline_witness :
  llm_ready (mkAiNuxLLM (str "linux") false None) = None /\
  requests (snd (parse_natural_language
                   (mkAiNuxLLM (str "linux") false None)
                   (str "show disk usage") hostile_world)) = 0.
Proof.
  assert (H : llm_ready (mkAiNuxLLM (str "linux") false None) = None)
    by reflexivity.
  split; [exact H|].
  exact (proj1 (llm_parse_offline _ (str "show disk usage") hostile_world H)).
Defined.

End LlmParse.

(** ** [AiNuxLLM._parse_with_regex] *)

Section LlmRegex.

Import Rx LLM.

Lemma llm_try_patterns_unfold platform ct pattern rest s :
  try_patterns platform ct (pattern :: rest) s =
  match search (compile pattern) s with
  | Some m =>
      match get (llm_commands platform) ct with
      | Some base =>
          if truthy base
          then Some (command_for platform ct pattern base m)
          else try_patterns platform ct rest s
      | None => try_patterns platform ct rest s
      end
  | None => try_patterns platform ct rest s
  end.
Proof. reflexivity. Qed.

Lemma llm_try_patterns_inv platform ct pl s c :
  try_patterns platform ct pl s = Some c ->
  exists pattern m base,
    In pattern pl /\ search (compile pattern) s = Some m /\
    get (llm_commands platform) ct = Some base /\ truthy base = true /\
    c = command_for platform ct pattern base m.
Proof.
  induction pl as [|pattern pl IH]; [discriminate|].
  rewrite llm_try_patterns_unfold.
  assert (Hrec : try_patterns platform ct pl s = Some c ->
                 exists pattern0 m base,
                   In pattern0 (pattern :: pl) /\
                   search (compile pattern0) s = Some m /\
                   get (llm_commands platform) ct = Some base /\
                   truthy base = true /\
                   c = command_for platform ct pattern0 base m).
  { intros H. destruct (IH H) as (p0 & m & base & Hin & Hrest).
    exists p0, m, base. split; [now right|exact Hrest]. }
  destruct (search (compile pattern) s) as [m|] eqn:Hs; [|exact Hrec].
  destruct (get (llm_commands platform) ct) as [base|] eqn:Hb;
    [|exact Hrec].
  destruct (truthy base) eqn:Ht; [|exact Hrec].
  intros H. injection H as <-. exists pattern, m, base.
  split; [now left|]. repeat split; auto.
Qed.

Lemma llm_try_types_inv platform items s c :
  try_types platform items s = Some c ->
  exists ct pl pattern m base,
    In (ct, pl) items /\ In pattern pl /\
    search (compile pattern) s = Some m /\
    get (llm_commands platform) ct = Some base /\ truthy base = true /\
    c = command_for platform ct pattern base m.
Proof.
  induction items as [|[ct pl] items IH]; simpl; [discriminate|].
  destruct (try_patterns platform ct pl s) as [c0|] eqn:E.
  - intros H. injection H as ->.
    apply llm_try_patterns_inv in E as (pattern & m & base & Hin & Hrest).
    exists ct, pl, pattern, m, base. split; [now left|]. now split.
  - intros H.
    destruct (IH H) as (ct0 & pl0 & pattern & m & base & Hin & Hrest).
    exists ct0, pl0, pattern, m, base. split; [now right|exact Hrest].
Qed.

Lemma try_advanced_inv items s c :
  try_advanced items s = Some c ->
  exists pattern f m,
    In (pattern, f) items /\ search (compile pattern) s = Some m /\
    f m = Some c.
Proof.
  induction items as [|[pattern f] items IH]; simpl; [discriminate|].
  assert (Hrec : try_advanced items s = Some c ->
                 exists pattern0 f0 m,
                   ((pattern, f) = (pattern0, f0) \/ In (pattern0, f0) items)
                   /\ search (compile pattern0) s = Some m /\
                   f0 m = Some c).
  { intros H. destruct (IH H) as (p0 & f0 & m & Hin & Hrest).
    exists p0, f0, m. split; [now right|exact Hrest]. }
  destruct (search (compile pattern) s) as [m|] eqn:Hs; [|exact Hrec].
  destruct (f m) as [c0|] eqn:Hf; [|exact Hrec].
  intros H. injection H as ->. exists pattern, f, m.
  split; [now left|]. now split.
Qed.

Lemma llm_known_platform platform :
  llm_commands platform <> [] -> In platform known_platforms.
Proof.
  unfold llm_commands, command_mappings. cbn [get].
  destruct (str_eqb (str "windows") platform) eqn:E1;
    [apply str_eqb_eq in E1; subst platform; intros _;
     vm_compute; intuition reflexivity|].
  destruct (str_eqb (str "linux") platform) eqn:E2;
    [apply str_eqb_eq in E2; subst platform; intros _;
     vm_compute; intuition reflexivity|].
  destruct (str_eqb (str "darwin") platform) eqn:E3;
    [apply str_eqb_eq in E3; subst platform; intros _;
     vm_compute; intuition reflexivity|].
  intros H. exfalso. apply H. reflexivity.
Qed.

Lemma llm_unknown_platform platform :
  ~ In platform known_platforms -> llm_commands platform = [].
Proof.
  intros H. destruct (llm_commands platform) eqn:E; [reflexivity|].
  exfalso. apply H. apply llm_known_platform. rewrite E. discriminate.
Qed.

Lemma llm_table_forall (P : pystr -> pystr -> bool) :
  forallb (fun pd => forallb (fun cb => P (fst cb) (snd cb)) (snd pd))
          command_mappings = true ->
  forall platform ct base,
    get (llm_commands platform) ct = Some base -> P ct base = true.
Proof.
  intros Hall platform ct base Hb.
  unfold llm_commands in Hb.
  destruct (get command_mappings platform) as [d|] eqn:Hd; [|discriminate].
  apply get_Some_In in Hd. apply get_Some_In in Hb.
  rewrite forallb_forall in Hall. specialize (Hall _ Hd).
  simpl in Hall. rewrite forallb_forall in Hall.
  exact (Hall _ Hb).
Qed.

Lemma llm_patterns_forall (Q : pystr -> pystr -> bool) :
  forallb (fun cp => forallb (Q (fst cp)) (snd cp)) patterns = true ->
  forall ct pl pattern,
    In (ct, pl) patterns -> In pattern pl -> Q ct pattern = true.
Proof.
  intros Hall ct pl pattern Hin Hp.
  rewrite forallb_forall in Hall. specialize (Hall _ Hin).
  simpl in Hall. rewrite forallb_forall in Hall. auto.
Qed.

Lemma llm_try_patterns_hit platform ct pl s base :
  get (llm_commands platform) ct = Some base -> truthy base = true ->
  (forall pattern m, command_for platform ct pattern base m = base) ->
  (exists pattern m, In pattern pl /\ search (compile pattern) s = Some m) ->
  try_patterns platform ct pl s = Some base.
Proof.
  intros Hb Ht Hcf (pattern & m & Hin & Hs).
  induction pl as [|p pl IH]; [destruct Hin|].
  rewrite llm_try_patterns_unfold, Hb, Ht.
  destruct (search (compile p) s) eqn:E; [now rewrite Hcf|].
  destruct Hin as [->|Hin]; [congruence|auto].
Qed.

Lemma llm_list_files_first platform s base :
  get (llm_commands platform) (str "list_files") = Some base ->
  truthy base = true ->
  (exists a w b, In w [str "dir"; str "ls"] /\ s = a ++ w ++ b) ->
  try_types platform patterns s = Some base.
Proof.
  intros Hb Ht (a & w & b & Hw & ->).
  unfold patterns. cbn [try_types].
  rewrite (llm_try_patterns_hit platform _ _ _ base Hb Ht);
    [reflexivity|reflexivity|].
  destruct Hw as [<-|[<-|[]]].
  - destruct (dir_found a b) as (m & Hm).
    exists (str "dir"), m. split; [|exact Hm]. simpl. intuition reflexivity.
  - destruct (ls_found a b) as (m & Hm).
    exists (str "ls"), m. split; [|exact Hm]. simpl. intuition reflexivity.
Qed.

(** X18: Whenever the input, in lower case, holds the letters [dir] or [ls]
    anywhere, the pattern parser of [ainux_llm.py] answers with the
    command that lists the files, whatever else the input says. *)
Theorem llm_regex_dir_or_ls platform user_input a w b :
  In platform known_platforms ->
  In w [str "dir"; str "ls"] ->
  lower user_input = a ++ w ++ b ->
  _parse_with_regex platform user_input =
  Some (if str_eqb platform (str "windows") then str "dir"
        else str "ls -la").
Proof.
  intros Hp Hw E. unfold _parse_with_regex.
  assert (Hv : visible_ends w = true)
    by (destruct Hw as [<-|[<-|[]]]; reflexivity).
  destruct (normalized_keeps _ _ _ _ Hv E) as (a' & b' & ->).
  assert (Hex : exists a0 w0 b0,
             In w0 [str "dir"; str "ls"] /\ a' ++ w ++ b' = a0 ++ w0 ++ b0)
    by (now exists a', w, b').
  unfold known_platforms in Hp. cbn [map In] in Hp.
  destruct Hp as [<-|[<-|[<-|[]]]].
  - now rewrite (llm_list_files_first (str "windows") _ (str "dir")
                                        eq_refl eq_refl Hex).
  - now rewrite (llm_list_files_first (str "linux") _ (str "ls -la")
                                        eq_refl eq_refl Hex).
  - now rewrite (llm_list_files_first (str "darwin") _ (str "ls -la")
                                        eq_refl eq_refl Hex).
Qed.

Lemma llm_regex_dir_or_ls_witness :
  _parse_with_regex (str "linux") (str "mkdir reports")
  = Some (str "ls -la").
Proof.
  apply (llm_regex_dir_or_ls (str "linux") (str "mkdir reports")
           (str "mk") (str "dir") (str " reports")).
  - vm_compute. intuition reflexivity.
  - simpl. intuition reflexivity.
  - vm_compute. reflexivity.
Defined.

(** X19: On a platform that is not in the table the first loop of the
    pattern parser never answers: what comes back, if anything, comes
    from the advanced patterns, with the commands of the non-Windows
    branch. *)
Theorem llm_regex_unknown_platform platform user_input :
  ~ In platform known_platforms ->
  try_types platform patterns (strip (lower user_input)) = None /\
  _parse_with_regex platform user_input =
  try_advanced (advanced_patterns platform) (strip (lower user_input)).
Proof.
  intros H.
  assert (Hn : try_types platform patterns (strip (lower user_input)) = None).
  { destruct (try_types platform patterns (strip (lower user_input)))
      as [c|] eqn:E; [|reflexivity].
    apply llm_try_types_inv in E
      as (ct & pl & p & m & base & _ & _ & _ & Hd & _).
    rewrite (llm_unknown_platform _ H) in Hd. discriminate. }
  split; [exact Hn|]. unfold _parse_with_regex. now rewrite Hn.
Qed.

Lemma llm_regex_unknown_platform_witness :
  ~ In (str "freebsd") known_platforms /\
  _parse_with_regex (str "freebsd") (str "list files here") = None /\
  _parse_with_regex (str "freebsd") (str "uptime") = Some (str "uptime").
Proof.
  assert (H : ~ In (str "freebsd") known_platforms).
  { vm_compute. intros [H|[H|[H|[]]]]; discriminate. }
  split; [exact H|]. split.
  - rewrite (proj2 (llm_regex_unknown_platform _ (str "list files here") H)).
    vm_compute. reflexivity.
  - rewrite (proj2 (llm_regex_unknown_platform _ (str "uptime") H)).
    vm_compute. reflexivity.
Defined.

Ltac each_advanced Hin :=
  unfold advanced_patterns in Hin; cbn [In] in Hin;
  repeat (destruct Hin as [Hin|Hin]; [injection Hin as <- <-|]);
  [..|destruct Hin].

(** No answer of the advanced patterns starts with [m]. *)
Lemma advanced_not_mkdir platform pattern f m c :
  In (pattern, f) (advanced_patterns platform) -> f m = Some c ->
  exists x t, c = x :: t /\ x <> "m".
Proof.
  intros Hin Hf. each_advanced Hin; cbv beta in Hf;
    unfold _get_large_files_command, _get_recent_files_command,
      _get_file_count_command, _get_total_size_command,
      _get_kill_process_command, _get_process_memory_command,
      _get_disk_space_command, _get_temperature_command,
      _get_uptime_command in Hf;
    destruct (is_windows platform);
    try destruct (int (shown (group1 m)));
    try destruct (str_eqb (shown (group1 m)) (str "today"));
    try discriminate Hf; injection Hf as <-;
    eexists; eexists; (split; [reflexivity|discriminate]).
Qed.

(** X20: The pattern parser of [ainux_llm.py] never asks for a directory
    with a name of more than one character either: whenever it answers
    [mkdir] with an argument, the argument is a single character. *)
Theorem llm_regex_mkdir_one_char platform user_input arg :
  _parse_with_regex platform user_input = Some (str "mkdir " ++ arg) ->
  List.length arg = 1.
Proof.
  unfold _parse_with_regex.
  destruct (try_types platform patterns (strip (lower user_input)))
    as [c|] eqn:H.
  - intros Hc. injection Hc as ->.
    pose proof H as Hinv.
    apply llm_try_types_inv in Hinv
      as (ct & pl & pattern & m & base & Hin & Hp & Hs & Hb & _ & Hc).
    assert (Hbase := llm_table_forall
              (fun ct b =>
                 negb (startswith b (str "mkdir "))
                 && implb (str_eqb ct (str "change_directory"))
                          (str_eqb b (str "cd"))
                 && implb (str_eqb ct (str "create_directory"))
                          (str_eqb b (str "mkdir")))
              eq_refl _ _ _ Hb).
    cbn beta in Hbase.
    apply andb_true_iff in Hbase as [Hbase Hmk].
    apply andb_true_iff in Hbase as [Hno Hcd].
    assert (Hpat := llm_patterns_forall
              (fun ct p =>
                 implb (str_eqb ct (str "create_directory")
                        && has_group (compile p))
                       (greedy_tail (compile p)
                        || str_eqb p (str "mkdir\s+(\S+)")))
              eq_refl _ _ _ Hin Hp).
    cbn beta in Hpat.
    unfold command_for in Hc. fold specials in Hc.
    destruct (in_list ct specials && has_group (compile pattern)) eqn:Hsp.
    + apply andb_true_iff in Hsp as [Hsp Hg].
      apply in_list_In in Hsp. vm_compute in Hsp.
      destruct Hsp as [<-|[<-|[]]].
      * rewrite str_eqb_refl in Hcd. cbn [implb] in Hcd.
        apply str_eqb_eq in Hcd. subst base. discriminate Hc.
      * rewrite str_eqb_refl in Hmk. cbn [implb] in Hmk.
        apply str_eqb_eq in Hmk. subst base.
        simpl in Hc. injection Hc as ->.
        rewrite Hg, str_eqb_refl in Hpat. cbn [andb implb] in Hpat.
        apply orb_true_iff in Hpat as [Ht|He].
        -- destruct (search_greedy_tail _ _ _ Ht Hs) as (c0 & ->).
           reflexivity.
        -- exfalso. apply str_eqb_eq in He. subst pattern.
           apply mkdir_pattern_needs_dir in Hs as (a & b & E).
           destruct (get (llm_commands platform) (str "list_files"))
             as [lf|] eqn:Hlf.
           ++ assert (Hl := llm_table_forall
                        (fun ct b =>
                           truthy b
                           && implb (str_eqb ct (str "list_files"))
                                    (negb (startswith b (str "mkdir "))))
                        eq_refl _ _ _ Hlf).
              cbn beta in Hl. apply andb_true_iff in Hl as [Ht Hn].
              rewrite str_eqb_refl in Hn. cbn [implb] in Hn.
              rewrite (llm_list_files_first platform _ lf Hlf Ht) in H.
              ** injection H as ->. unfold startswith in Hn.
                 simpl in Hn. discriminate Hn.
              ** exists a, (str "dir"), b. split; [|exact E].
                 simpl. intuition reflexivity.
           ++ assert (Hk : llm_commands platform <> [])
                by (intros E0; rewrite E0 in Hb; discriminate).
              apply llm_known_platform in Hk.
              unfold known_platforms in Hk. cbn [map In] in Hk.
              destruct Hk as [<-|[<-|[<-|[]]]]; discriminate Hlf.
    + destruct (str_eqb ct (str "list_specific_files")
                && has_group (compile pattern)).
      { destruct (is_windows platform); discriminate Hc. }
      destruct (str_eqb ct (str "show_specific_processes")
                && has_group (compile pattern)).
      { destruct (is_windows platform); discriminate Hc. }
      subst base. unfold startswith in Hno.
      simpl in Hno. discriminate Hno.
  - intros Hadv. apply try_advanced_inv in Hadv as (p & f & m & Hin & _ & Hf).
    destruct (advanced_not_mkdir _ _ _ _ _ Hin Hf) as (x & t0 & E & Hx).
    simpl in E. injection E as E _. now contradiction Hx.
Qed.

Lemma llm_regex_mkdir_one_char_witness :
  _parse_with_regex (str "linux")
                    (str "Create a backup folder called backup_2025")
  = Some (str "mkdir " ++ str "5") /\
  List.length (str "5") = 1.
Proof.
  assert (H : _parse_with_regex (str "linux")
                (str "Create a backup folder called backup_2025")
              = Some (str "mkdir " ++ str "5"))
    by (vm_compute; reflexivity).
  split; [exact H|].
  exact (llm_regex_mkdir_one_char _ _ _ H).
Defined.

End LlmRegex.

(** ** What the pattern parsers never answer *)

Section NeverDestructive.

Import Rx.

Lemma no_clash_app x y b :
  clash x b = false -> startswith (x ++ y) b = false.
Proof.
  unfold clash, startswith. revert x.
  induction b as [|c b IH]; intros x H; [discriminate|].
  destruct x as [|d x]; [now rewrite orb_true_r in H|].
  simpl in *. destruct (Ascii.eqb c d) eqn:E.
  - apply Ascii.eqb_eq in E. subst d. rewrite Ascii.eqb_refl in H.
    simpl in H. now apply IH.
  - reflexivity.
Qed.

Lemma head_ok h t b :
  forallb (fun b => negb (clash h b)) destructive_heads = true ->
  In b destructive_heads -> startswith (h ++ t) b = false.
Proof.
  intros Hall Hb. rewrite forallb_forall in Hall.
  apply no_clash_app. apply negb_true_iff. auto.
Qed.

Lemma key_in_list {V : Type} ct (pl : V) (items : list (pystr * V)) :
  In (ct, pl) items -> in_list ct (map fst items) = true.
Proof.
  intros H. apply in_list_In. apply (in_map fst) in H. exact H.
Qed.

(** X8: The parser of [ainux.py] never answers with a removal, a move or a
    copy: no command it returns starts with [rm], [del], [mv], [move],
    [cp], [copy], [kill] or [taskkill], although its table holds [rm],
    [del], [mv], [move], [cp] and [copy]. *)
Theorem ainux_parse_never_destructive platform user_input c b :
  AiNuxShell.parse_natural_language platform user_input = Some c ->
  In b destructive_heads ->
  startswith c b = false.
Proof.
  unfold AiNuxShell.parse_natural_language. intros H Hb.
  apply try_types_inv in H
    as (ct & pl & pattern & m & base & Hin & _ & _ & Hbase & _ & ->).
  assert (Hok := table_forall
            (fun ct b =>
               implb (in_list ct (map fst AiNuxShell.patterns))
                     (forallb (fun h => negb (clash b h)) destructive_heads))
            eq_refl _ _ _ Hbase).
  cbn beta in Hok. rewrite (key_in_list _ _ _ Hin) in Hok.
  cbn [implb] in Hok.
  destruct (in_list ct specials && has_group (compile pattern)).
  - now apply head_ok.
  - rewrite <- (app_nil_r base). now apply head_ok.
Qed.

Lemma ainux_parse_never_destructive_witness :
  AiNuxShell.parse_natural_language (str "linux") (str "cd rm")
  = Some (str "cd rm") /\
  startswith (str "cd rm") (str "rm") = false.
Proof.
  assert (H : AiNuxShell.parse_natural_language (str "linux") (str "cd rm")
              = Some (str "cd rm")) by (vm_compute; reflexivity).
  split; [exact H|].
  apply (ainux_parse_never_destructive _ _ _ (str "rm") H).
  vm_compute. intuition reflexivity.
Defined.

Ltac each_head Hb :=
  unfold destructive_heads in Hb; cbn [map In] in Hb;
  repeat (destruct Hb as [<-|Hb]; [reflexivity|]); destruct Hb.

Lemma advanced_never_destructive platform pattern f m c b :
  In (pattern, f) (LLM.advanced_patterns platform) -> f m = Some c ->
  In b destructive_heads -> startswith c b = false.
Proof.
  intros Hin Hf Hb.
  unfold LLM.advanced_patterns in Hin; cbn [In] in Hin;
    repeat (destruct Hin as [Hin|Hin]; [injection Hin as <- <-|]);
    [..|destruct Hin];
    cbv beta in Hf;
    unfold LLM._get_large_files_command, LLM._get_recent_files_command,
      LLM._get_file_count_command, LLM._get_total_size_command,
      LLM._get_kill_process_command, LLM._get_process_memory_command,
      LLM._get_disk_space_command, LLM._get_temperature_command,
      LLM._get_uptime_command in Hf;
    destruct (LLM.is_windows platform);
    try destruct (int (shown (group1 m)));
    try destruct (str_eqb (shown (group1 m)) (str "today"));
    try discriminate Hf; injection Hf as <-; each_head Hb.
Qed.

(** X21: The pattern parser of [ainux_llm.py] never answers with a removal,
    a move, a copy or a kill: no command it returns starts with [rm],
    [del], [mv], [move], [cp], [copy], [kill] or [taskkill].  A request
    to kill a process is answered with a listing of processes. *)
Theorem llm_regex_never_destructive platform user_input c b :
  LLM._parse_with_regex platform user_input = Some c ->
  In b destructive_heads ->
  startswith c b = false.
Proof.
  unfold LLM._parse_with_regex. intros H Hb.
  destruct (LLM.try_types platform LLM.patterns (strip (lower user_input)))
    as [c0|] eqn:E.
  - injection H as ->.
    apply llm_try_types_inv in E
      as (ct & pl & pattern & m & base & Hin & _ & _ & Hbase & _ & ->).
    assert (Hok := llm_table_forall
              (fun ct b =>
                 implb (in_list ct (map fst LLM.patterns))
                       (forallb (fun h => negb (clash b h))
                                destructive_heads))
              eq_refl _ _ _ Hbase).
    cbn beta in Hok. rewrite (key_in_list _ _ _ Hin) in Hok.
    cbn [implb] in Hok.
    unfold LLM.command_for.
    destruct (in_list ct _ && has_group (compile pattern)).
    { now apply head_ok. }
    destruct (str_eqb ct (str "list_specific_files")
              && has_group (compile pattern)).
    { destruct (LLM.is_windows platform); now apply head_ok. }
    destruct (str_eqb ct (str "show_specific_processes")
              && has_group (compile pattern)).
    { destruct (LLM.is_windows platform); each_head Hb. }
    rewrite <- (app_nil_r base). now apply head_ok.
  - apply try_advanced_inv in H as (p & f & m & Hin & _ & Hf).
    eapply advanced_never_destructive; eauto.
Qed.

Lemma llm_regex_never_destructive_witness :
  LLM._parse_with_regex (str "linux") (str "kill process chrome")
  = Some (str "ps aux | grep kill") /\
  startswith (str "ps aux | grep kill") (str "kill") = false.
Proof.
  assert (H : LLM._parse_with_regex (str "linux")
                                    (str "kill process chrome")
              = Some (str "ps aux | grep kill"))
    by (vm_compute; reflexivity).
  split; [exact H|].
  apply (llm_regex_never_destructive _ _ _ (str "kill") H).
  vm_compute. intuition reflexivity.
Defined.

End NeverDestructive.

(** ** More on [AiNuxLLM.is_command_safe] and [AiNuxLLM.execute_command] *)

Section GateAndExecutor.

(** X23: The shell is handed the command exactly when the classifier says
    [True], or says ["confirm"] and the next line on standard input,
    trimmed and upper-cased, is [YES]; in every other case, the end of
    input at the prompt included, nothing is run. *)
Theorem spawn_iff_reaches_shell cmd w :
  (reaches_shell cmd w <->
   spawned (snd (execute_command cmd w)) = spawned w ++ [cmd]) /\
  (~ reaches_shell cmd w ->
   spawned (snd (execute_command cmd w)) = spawned w).
Proof.
  unfold reaches_shell.
  destruct (is_command_safe cmd) eqn:E.
  - rewrite (execute_Safe _ _ E), run_command_world. simpl.
    split; [tauto|]. intros H. now contradiction H.
  - destruct (stdin w) as [|line rest] eqn:Hin.
    + rewrite (execute_Confirm_eof _ _ E Hin). simpl. split.
      * split.
        -- intros (l & r & H & _). discriminate.
        -- intros H. symmetry in H. now apply app_one_neq in H.
      * reflexivity.
    + rewrite (execute_Confirm _ _ _ _ E Hin).
      destruct (codes_eqb (upper (strip line)) YES) eqn:Hy.
      * apply codes_eqb_true in Hy. rewrite run_command_world. simpl.
        split.
        -- split; [reflexivity|]. intros _. now exists line, rest.
        -- intros H. exfalso. apply H. now exists line, rest.
      * simpl. split; [|reflexivity]. split.
        -- intros (l & r & H & Hyes). injection H as <- <-.
           apply codes_eqb_true in Hyes. congruence.
        -- intros H. symmetry in H. now apply app_one_neq in H.
  - rewrite (execute_Forbidden _ _ E). simpl. split; [|reflexivity].
    split; [tauto|]. intros H. symmetry in H. now apply app_one_neq in H.
Qed.

Lemma spawn_iff_reaches_shell_witness :
  ~ reaches_shell (str "rm -rf testdir") no_world /\
  spawned (snd (execute_command (str "rm -rf testdir") no_world)) = [].
Proof.
  assert (H : ~ reaches_shell (str "rm -rf testdir") no_world).
  { unfold reaches_shell.
    replace (is_command_safe (str "rm -rf testdir")) with Confirm
      by (vm_compute; reflexivity).
    intros (l & r & Hin & Hy). injection Hin as <- <-.
    vm_compute in Hy. discriminate. }
  split; [exact H|].
  exact (proj2 (spawn_iff_reaches_shell (str "rm -rf testdir") no_world) H).
Defined.

Lemma run_command_shape cmd w r w' :
  run_command cmd w = (Return r, w') ->
  command r = cmd /\
  (return_code r = None -> success r = false /\ error r <> []) /\
  (forall rc, return_code r = Some rc ->
              success r = (rc =? 0)%Z /\
              exists out err, shell w cmd = Completed rc out err).
Proof.
  unfold run_command, bind, subprocess_run, ret.
  destruct (shell w cmd) as [rc out err| |msg]; intros H;
    injection H as <- _; simpl.
  - split; [reflexivity|]. split; [discriminate|].
    intros rc0 E. injection E as <-. split; [reflexivity|]. now exists out, err.
  - split; [reflexivity|]. split; [|discriminate].
    intros _. split; [reflexivity|discriminate].
  - split; [reflexivity|]. split; [|discriminate].
    intros _. split; [reflexivity|discriminate].
Qed.

(** X24: Every result of [execute_command] echoes the command it was given.
    A result without [return_code] (blocked, cancelled, timed out, or
    an exception of the shell call) has [success] false and an error
    text; a result with [return_code] comes from a completed process
    and has [success] equal to [return_code == 0]. *)
Theorem execute_result_shape cmd w r w' :
  execute_command cmd w = (Return r, w') ->
  command r = cmd /\
  (return_code r = None -> success r = false /\ error r <> []) /\
  (forall rc, return_code r = Some rc ->
              success r = (rc =? 0)%Z /\
              exists out err, shell w cmd = Completed rc out err).
Proof.
  intros H.
  assert (Hstop : forall r0, (r0 = blocked cmd \/ r0 = cancelled cmd) ->
            command r0 = cmd /\
            (return_code r0 = None -> success r0 = false /\ error r0 <> []) /\
            (forall rc, return_code r0 = Some rc ->
                        success r0 = (rc =? 0)%Z /\
                        exists out err, shell w cmd = Completed rc out err)).
  { intros r0 [->| ->]; simpl;
      (split; [reflexivity|]; split; [|discriminate]);
      intros _; (split; [reflexivity|discriminate]). }
  destruct (is_command_safe cmd) eqn:E.
  - rewrite (execute_Safe _ _ E) in H. now apply run_command_shape in H.
  - destruct (stdin w) as [|line rest] eqn:Hin.
    + rewrite (execute_Confirm_eof _ _ E Hin) in H. discriminate.
    + rewrite (execute_Confirm _ _ _ _ E Hin) in H.
      destruct (codes_eqb (upper (strip line)) YES).
      * now apply run_command_shape in H.
      * injection H as <- _. apply Hstop. now right.
  - rewrite (execute_Forbidden _ _ E) in H.
    injection H as <- _. apply Hstop. now left.
Qed.

Lemma execute_result_shape_witness :
  exists r w',
    execute_command (str "reboot") eof_world = (Return r, w') /\
    command r = str "reboot" /\ return_code r = None /\
    success r = false /\ error r <> [].
Proof.
  eexists. eexists.
  assert (H : execute_command (str "reboot") eof_world
              = (Return (blocked (str "reboot")), eof_world))
    by (vm_compute; reflexivity).
  split; [exact H|].
  destruct (execute_result_shape _ _ _ _ H) as (H1 & H2 & _).
  split; [exact H1|]. split; [reflexivity|]. exact (H2 eq_refl).
Defined.

(** X25: When the classifier says ["confirm"] and standard input is at its
    end, [execute_command] does not return a result: the [EOFError] of
    [input], which is read outside the [try] block, goes to the caller,
    after the warning and the prompt are printed and with nothing
    run. *)
Theorem confirm_at_end_of_input cmd w :
  is_command_safe cmd = Confirm -> stdin w = [] ->
  fst (execute_command cmd w) = Raise EOFError /\
  spawned (snd (execute_command cmd w)) = spawned w /\
  console (snd (execute_command cmd w)) =
  console w ++ [warning cmd; str "If you're absolutely certain, type YES.";
                str "Confirm (YES to run): "].
Proof.
  intros E Hin. rewrite (execute_Confirm_eof _ _ E Hin). simpl.
  split; [reflexivity|]. split; [reflexivity|].
  now rewrite <- !app_assoc.
Qed.

Lemma confirm_at_end_of_input_witness :
  is_command_safe (str "mv a b") = Confirm /\
  stdin eof_world = [] /\
  fst (execute_command (str "mv a b") eof_world) = Raise EOFError.
Proof.
  assert (E : is_command_safe (str "mv a b") = Confirm)
    by (vm_compute; reflexivity).
  split; [exact E|]. split; [reflexivity|].
  exact (proj1 (confirm_at_end_of_input (str "mv a b") eof_world E eq_refl)).
Defined.

(** X26: A command of blanks only, the empty command included, is answered
    with [True] by the classifier and so goes to the shell. *)
Theorem blank_command_is_safe cmd :
  forallb isspace cmd = true -> is_command_safe cmd = Safe.
Proof.
  intros H. rewrite (is_command_safe_normalize cmd []).
  - vm_compute. reflexivity.
  - unfold normalize. rewrite strip_blank; [reflexivity|].
    now rewrite forallb_lower_isspace.
Qed.

Lemma blank_command_is_safe_witness :
  forallb isspace (str "  ") = true /\ is_command_safe (str "  ") = Safe.
Proof.
  assert (H : forallb isspace (str "  ") = true) by reflexivity.
  split; [exact H|]. exact (blank_command_is_safe _ H).
Defined.

(** X22: An input of blanks only, the empty input included, is not
    understood by the pattern parser of [ainux_llm.py] on any
    platform. *)
Theorem llm_regex_blank platform user_input :
  forallb isspace user_input = true ->
  LLM._parse_with_regex platform user_input = None.
Proof.
  intros H. unfold LLM._parse_with_regex.
  rewrite strip_blank by (now rewrite forallb_lower_isspace).
  destruct (LLM.try_types platform LLM.patterns []) as [c|] eqn:E.
  - exfalso.
    apply llm_try_types_inv in E
      as (ct & pl & p & m & base & Hin & Hp & Hs & _).
    assert (Hn := llm_patterns_forall
              (fun _ p => match Rx.search (Rx.compile p) [] with
                          | None => true
                          | Some _ => false
                          end)
              eq_refl _ _ _ Hin Hp).
    cbn beta in Hn. rewrite Hs in Hn. discriminate.
  - vm_compute. reflexivity.
Qed.

Lemma llm_regex_blank_witness :
  forallb isspace [nl] = true /\
  LLM._parse_with_regex (str "windows") [nl] = None.
Proof.
  assert (H : forallb isspace [nl] = true) by reflexivity.
  split; [exact H|]. exact (llm_regex_blank (str "windows") [nl] H).
Defined.

(** X27: What the user is shown of a command that ran and exited with 0:
    the command, [Status: SUCCESS] and the trimmed standard output, or
    [(no output)].  The standard error of such a command is kept in
    the result and never printed. *)
Theorem stderr_of_success_not_shown cmd w out err :
  reaches_shell cmd w ->
  shell w cmd = Completed 0 out err ->
  exists r w1,
    execute_command cmd w = (Return r, w1) /\
    error r = strip err /\
    LLM.display_result r w1 =
    (Return tt,
     mkWorld (stdin w1) (console w1 ++ success_lines cmd (strip out))
             (spawned w1) (shell w1)).
Proof.
  intros Hr Hc.
  assert (Hshow : forall w1,
             LLM.display_result (completed cmd 0 out err) w1 =
             (Return tt,
              mkWorld (stdin w1) (console w1 ++ success_lines cmd (strip out))
                      (spawned w1) (shell w1))).
  { intros w1. unfold LLM.display_result, success_lines, bind, print, ret.
    simpl. destruct (truthy (strip out)); simpl;
      now rewrite <- !app_assoc. }
  unfold reaches_shell in Hr.
  destruct (is_command_safe cmd) eqn:E; [| |contradiction].
  - exists (completed cmd 0 out err), (ran cmd w).
    rewrite (execute_Safe _ _ E).
    split; [now apply run_command_Completed|].
    split; [reflexivity|apply Hshow].
  - destruct Hr as (line & rest & Hin & Hyes).
    exists (completed cmd 0 out err), (ran cmd (asked cmd rest w)).
    rewrite (execute_Confirm _ _ _ _ E Hin).
    apply codes_eqb_true in Hyes. rewrite Hyes.
    split; [now apply run_command_Completed|].
    split; [reflexivity|apply Hshow].
Qed.

Lemma stderr_of_success_not_shown_witness :
  reaches_shell (str "ls") warn_world /\
  exists r w1,
    execute_command (str "ls") warn_world = (Return r, w1) /\
    error r = str "warning: deprecated" /\
    console (snd (LLM.display_result r w1)) =
    success_lines (str "ls") (str "ok").
Proof.
  assert (Hr : reaches_shell (str "ls") warn_world)
    by (vm_compute; exact I).
  split; [exact Hr|].
  destruct (stderr_of_success_not_shown (str "ls") warn_world
              (str "ok") (str "warning: deprecated") Hr eq_refl)
    as (r & w1 & Hex & Herr & Hshow).
  exists r, w1. split; [exact Hex|]. split; [exact Herr|].
  rewrite Hshow. simpl.
  assert (Hw : w1 = ran (str "ls") warn_world).
  { assert (H : execute_command (str "ls") warn_world
                = (Return (completed (str "ls") 0 (str "ok")
                                     (str "warning: deprecated")),
                   ran (str "ls") warn_world))
      by (vm_compute; reflexivity).
    rewrite H in Hex. now injection Hex as _ <-. }
  subst w1. reflexivity.
Defined.

End GateAndExecutor.
